(** * turnstyle: the polling decision engine ([src/wait.ts]) and its run source
    ([src/github.ts]), embedded as Rocq functions.

    Numbers are the integers the action works with (run ids, seconds), held
    in [Z]; an optional argument or field ([undefined], [null]) is an
    [option]; JavaScript's truthiness tests are written out.  The side
    effects of one call of [wait] ([setOutput], the [setTimeout] sleep) are
    collected as a list of effects, and the private field [attempt] is
    threaded through the [Waiter] record.  Log lines ([info], [debug],
    [console.log]) carry no decision and are left out. *)

From Stdlib Require Import ZArith List String Bool Lia Permutation Sorted.
Import ListNotations.
Open Scope Z_scope.

(** ** JavaScript primitives used by the sources *)

Module JS.

(** [if (x)] on a [number | undefined]: [undefined] and [0] are falsy. *)
Definition truthy_num (x : option Z) : bool :=
  match x with
  | Some n => negb (n =? 0)
  | None => false
  end.

(** [if (s)] on a [string | undefined]: [undefined] and [''] are falsy. *)
Definition truthy_str (x : option string) : bool :=
  match x with
  | Some s => negb (String.eqb s EmptyString)
  | None => false
  end.

(** [x || d] on a number. *)
Definition or_num (x d : Z) : Z := if x =? 0 then d else x.

(** [x || d] on a [number | undefined]. *)
Definition or_undef (x : option Z) (d : Z) : Z :=
  match x with
  | Some n => or_num n d
  | None => d
  end.

(** [s.includes(sub)]: [sub] occurs in [s] at some position. *)
Fixpoint includes (s sub : string) : bool :=
  String.prefix sub s ||
  match s with
  | EmptyString => false
  | String _ s' => includes s' sub
  end.

(** [s?.includes(sub)] on a [string | null | undefined]; [undefined] is
    falsy where the result is tested. *)
Definition opt_includes (s : option string) (sub : string) : bool :=
  match s with
  | Some s => includes s sub
  | None => false
  end.

(** [l.find(p)]: the first element satisfying [p], or [undefined]. *)
Definition find {A : Type} (p : A -> bool) (l : list A) : option A :=
  List.find p l.

Section Sort.
Context {A : Type} (cmp : A -> A -> Z).

(** [Array.prototype.sort(cmp)] is a stable sort: an element stays in
    front of the later elements it compares equal to.  A stable sort's
    result is determined by the comparator, so the insertion sort below
    stands for the engine's. *)
Fixpoint insert (x : A) (l : list A) : list A :=
  match l with
  | [] => [x]
  | y :: l' => if cmp x y <=? 0 then x :: l else y :: insert x l'
  end.

Fixpoint sort (l : list A) : list A :=
  match l with
  | [] => []
  | x :: l' => insert x (sort l')
  end.
End Sort.

End JS.

(** ** Data model: what the Waiter reads of the platform's records *)

Record Run := {
  run_id : Z;
  run_status : option string;
  run_conclusion : option string;
  run_display_title : option string;
  run_name : option string;
  run_html_url : string
}.

Record Step := {
  step_name : string;
  step_status : string
}.

Record Job := {
  job_id : Z;
  job_name : string;
  job_status : string;
  job_html_url : string;
  job_steps : option (list Step)
}.

(** Modelled from the spec: the [Input] record of [./input], which is not
    among the sources.  The fields are the ones [wait.ts] reads; the optional
    ones are the spec's optional configuration fields. *)
Record Input := {
  owner : string;
  repo : string;
  branch : string;
  sameBranchOnly : bool;
  runId : Z;
  queueName : option string;
  jobToWaitFor : option string;
  stepToWaitFor : option string;
  pollIntervalSeconds : Z;
  initialWaitSeconds : option Z;
  continueAfterSeconds : option Z;
  abortAfterSeconds : option Z;
  exponentialBackoffRetries : bool
}.

(** ** The run source ([src/github.ts]) *)

Inductive RunStatus := in_progress | queued | waiting.

(** The platform as the client sees it during one tick: what the paginated
    listings and the job lookup answer. *)
Record Octokit := {
  listWorkflowRuns : string -> string -> option string -> Z -> RunStatus -> list Run;
  listJobsForWorkflowRun : string -> string -> Z -> list Job;
  getJobForWorkflowRun : string -> string -> Z -> Job
}.

Module GitHub.

(** [runs]: the branch option is set only for a truthy branch; the three
    status listings are joined in the order in_progress, queued, waiting. *)
Definition runs (o : Octokit) (owner repo : string) (branch : option string)
    (workflow_id : Z) : list Run :=
  let branch := if JS.truthy_str branch then branch else None in
  let in_progress_runs := listWorkflowRuns o owner repo branch workflow_id in_progress in
  let queued_runs := listWorkflowRuns o owner repo branch workflow_id queued in
  let waiting_runs := listWorkflowRuns o owner repo branch workflow_id waiting in
  in_progress_runs ++ queued_runs ++ waiting_runs.

Definition jobs (o : Octokit) (owner repo : string) (run_id : Z) : list Job :=
  listJobsForWorkflowRun o owner repo run_id.

(** [steps]: [job.steps || []]. *)
Definition steps (o : Octokit) (owner repo : string) (job_id : Z) : list Step :=
  match job_steps (getJobForWorkflowRun o owner repo job_id) with
  | Some steps => steps
  | None => []
  end.

End GitHub.

(** ** The filter and ordering pipeline of [wait] (lines 86-138) *)

Definition matchesQueue (queueName : string) (run : Run) : bool :=
  JS.opt_includes (run_display_title run) queueName ||
  JS.opt_includes (run_name run) queueName.

Definition isSuccessful (run : Run) : bool :=
  match run_conclusion run with
  | Some c => String.eqb c "success"
  | None => false
  end.

(** The comparator of line 138, [(a, b) => b.id - a.id]. *)
Definition by_id_desc (a b : Run) : Z := run_id b - run_id a.

Definition previousRuns (input : Input) (runs : list Run) : list Run :=
  let filteredRuns :=
    if JS.truthy_str (queueName input) then
      match queueName input with
      | Some q => filter (matchesQueue q) runs
      | None => runs
      end
    else runs in
  let runsBeforeCurrent := filter (fun run => run_id run <? runId input) filteredRuns in
  JS.sort by_id_desc
    (filter (fun run => negb (isSuccessful run)) runsBeforeCurrent).

(** ** The Waiter ([src/wait.ts]) *)

(** What a call of [wait] does to the outside: the outputs it sets and the
    time it sleeps, in order. *)
Inductive Effect :=
| SetOutput (name value : string)
| Sleep (ms : Z).

(** The branch of the state machine a tick takes. *)
Inductive Outcome :=
| Continued
| Aborted
| Proceeded
| InitialDelay
| WaitingFullRun
| WaitingJob
| WaitingStep.

(** How the body of [wait] ends: [return v] ([None] for a bare [return;],
    whose value is [undefined]), the thrown
    [Error(`Aborted after waiting ${secondsSoFar} seconds`)], which carries
    the argument as it was passed, or the tail call [this.wait(s)]. *)
Inductive Completion :=
| Return (value : option Z)
| Throw (secondsSoFar : option Z)
| Recurse (secondsSoFar : Z).

(** The fields of the class; the client is passed along with each tick since
    its answers change between ticks. *)
Record Waiter := {
  input : Input;
  workflowId : Z;
  attempt : Z
}.

Definition new_Waiter (workflowId : Z) (input : Input) : Waiter :=
  {| input := input; workflowId := workflowId; attempt := 0 |}.

Definition set_attempt (this : Waiter) (a : Z) : Waiter :=
  {| input := input this; workflowId := workflowId this; attempt := a |}.

Record Tick := {
  outcome : Outcome;
  completion : Completion;
  effects : list Effect;
  this' : Waiter
}.

(** [pollAndWait]: sleep, then call [wait] with the interval added. *)
Definition pollAndWait (this : Waiter) (secondsSoFar pollingInterval : option Z)
    : list Effect * Completion :=
  let intervalToUse := JS.or_undef pollingInterval (pollIntervalSeconds (input this)) in
  ([Sleep (intervalToUse * 1000)], Recurse (JS.or_undef secondsSoFar 0 + intervalToUse)).

(** The block shared by the three waiting branches (lines 179-185, 198-204
    and 217-223): the interval, the backoff and the call of [pollAndWait]. *)
Definition awaitCompletion (o : Outcome) (this : Waiter) (secondsSoFar : option Z) : Tick :=
  let pollingInterval := pollIntervalSeconds (input this) in
  let '(pollingInterval, this1) :=
    if exponentialBackoffRetries (input this) then
      (pollIntervalSeconds (input this) * JS.or_num (2 * attempt this) 1,
       set_attempt this (attempt this + 1))
    else (pollingInterval, this) in
  let '(effs, c) := pollAndWait this1 secondsSoFar (Some pollingInterval) in
  {| outcome := o; completion := c; effects := effs; this' := this1 |}.

(** A bare [return;] of the step and job branches (lines 188 and 207). *)
Definition completed (this : Waiter) : Tick :=
  {| outcome := Proceeded; completion := Return None; effects := []; this' := this |}.

(** Lines 173-194; [None] when control falls through to the job test. *)
Definition stepDecision (github : Octokit) (this : Waiter) (secondsSoFar : option Z)
    (job : option Job) : option Tick :=
  match stepToWaitFor (input this), job with
  | Some stepName, Some job =>
      if JS.truthy_str (Some stepName) then
        let steps := GitHub.steps github (owner (input this)) (repo (input this)) (job_id job) in
        match JS.find (fun step => String.eqb (step_name step) stepName) steps with
        | Some step =>
            if negb (String.eqb (step_status step) "completed")
            then Some (awaitCompletion WaitingStep this secondsSoFar)
            else Some (completed this)
        | None => None
        end
      else None
  | _, _ => None
  end.

(** Lines 168-213; [None] when control falls through to the whole-run wait. *)
Definition jobDecision (github : Octokit) (this : Waiter) (secondsSoFar : option Z)
    (previousRun : Run) : option Tick :=
  match jobToWaitFor (input this) with
  | Some jobName =>
      if JS.truthy_str (Some jobName) then
        let jobs := GitHub.jobs github (owner (input this)) (repo (input this)) (run_id previousRun) in
        let job := JS.find (fun job => String.eqb (job_name job) jobName) jobs in
        match stepDecision github this secondsSoFar job with
        | Some t => Some t
        | None =>
            match job with
            | Some job =>
                if negb (String.eqb (job_status job) "completed")
                then Some (awaitCompletion WaitingJob this secondsSoFar)
                else Some (completed this)
            | None => None
            end
        end
      else None
  | None => None
  end.

(** The guard of line 41. *)
Definition continues (input : Input) (secondsSoFar : option Z) : bool :=
  JS.truthy_num (continueAfterSeconds input) &&
  match continueAfterSeconds input with
  | Some c => JS.or_undef secondsSoFar 0 >=? c
  | None => false
  end.

(** The guard of line 47. *)
Definition aborts (input : Input) (secondsSoFar : option Z) : bool :=
  JS.truthy_num (abortAfterSeconds input) &&
  match abortAfterSeconds input with
  | Some a => JS.or_undef secondsSoFar 0 >=? a
  | None => false
  end.

(** The guard of lines 145-146; [undefined > 0] is false. *)
Definition retriesInitially (input : Input) (secondsSoFar : option Z) : bool :=
  match initialWaitSeconds input with
  | Some i => (i >? 0) && (JS.or_undef secondsSoFar 0 <? i)
  | None => false
  end.

(** The call of [this.githubClient.runs] (lines 55-60). *)
Definition fetchRuns (github : Octokit) (this : Waiter) : list Run :=
  GitHub.runs github (owner (input this)) (repo (input this))
    (if sameBranchOnly (input this) then Some (branch (input this)) else None)
    (workflowId this).

(** One call of [wait] up to its return, throw or tail call. *)
Definition wait_tick (github : Octokit) (this : Waiter) (secondsSoFar : option Z) : Tick :=
  if continues (input this) secondsSoFar then
    {| outcome := Continued;
       completion := Return (Some (JS.or_undef secondsSoFar 0));
       effects := [SetOutput "force_continued" "1"];
       this' := this |}
  else if aborts (input this) secondsSoFar then
    {| outcome := Aborted;
       completion := Throw secondsSoFar;
       effects := [SetOutput "force_continued" ""];
       this' := this |}
  else
    let runs := fetchRuns github this in
    match previousRuns (input this) runs with
    | [] =>
        if retriesInitially (input this) secondsSoFar then
          let i := match initialWaitSeconds (input this) with Some i => i | None => 0 end in
          {| outcome := InitialDelay;
             completion := Recurse (JS.or_undef secondsSoFar 0 + i);
             effects := [SetOutput "force_continued" ""; Sleep (i * 1000)];
             this' := this |}
        else
          {| outcome := Proceeded;
             completion := Return None;
             effects := [SetOutput "force_continued" ""];
             this' := this |}
    | previousRun :: _ =>
        match jobDecision github this secondsSoFar previousRun with
        | Some t => t
        | None => awaitCompletion WaitingFullRun this secondsSoFar
        end
    end.

(** How a whole call of [wait] ends: the promise resolves with a value,
    rejects with the abort error, or is still polling after the ticks
    considered. *)
Inductive Result :=
| Resolved (value : option Z)
| Rejected (secondsSoFar : option Z)
| Polling (secondsSoFar : Z).

(** [wait] with its tail calls unrolled at most [ticks] times;
    [platform n] is what the client sees during tick [n]. *)
Fixpoint wait (ticks : nat) (platform : nat -> Octokit) (n : nat) (this : Waiter)
    (secondsSoFar : option Z) : Result * list Effect * Waiter :=
  let t := wait_tick (platform n) this secondsSoFar in
  match completion t with
  | Return v => (Resolved v, effects t, this' t)
  | Throw s => (Rejected s, effects t, this' t)
  | Recurse s =>
      match ticks with
      | O => (Polling s, effects t, this' t)
      | S ticks' =>
          let '(r, effs, w) := wait ticks' platform (S n) (this' t) (Some s) in
          (r, effects t ++ effs, w)
      end
  end.

Definition is_waiting (o : Outcome) : bool :=
  match o with
  | WaitingFullRun | WaitingJob | WaitingStep => true
  | _ => false
  end.

Definition sleeps (effs : list Effect) : list Z :=
  flat_map (fun e => match e with Sleep ms => [ms] | SetOutput _ _ => [] end) effs.

(** ** The filter pipeline in the spec's words *)

(** The run is one the pipeline keeps: it passes the queue-name filter when
    one is configured (an empty name is the unset action input: no filter),
    its id is strictly less than the current run's, and its conclusion is
    not "success". *)
Definition spec_relevant (input : Input) (run : Run) : bool :=
  match queueName input with
  | Some q =>
      if String.eqb q "" then true
      else JS.opt_includes (run_display_title run) q || JS.opt_includes (run_name run) q
  | None => true
  end
  && (run_id run <? runId input)
  && negb (match run_conclusion run with
           | Some c => String.eqb c "success"
           | None => false
           end).

Definition id_ge (a b : Run) : Prop := run_id a >= run_id b.
Definition id_gt (a b : Run) : Prop := run_id a > run_id b.

(** ** Concrete records used by the examples *)

Definition mkRun (id : Z) (status conclusion : option string) : Run :=
  {| run_id := id; run_status := status; run_conclusion := conclusion;
     run_display_title := Some "deploy"%string; run_name := Some "CI"%string;
     run_html_url := "https://github.com/o/r/actions/runs"%string |}.

Definition mkJob (id : Z) (name status : string) (steps : list Step) : Job :=
  {| job_id := id; job_name := name; job_status := status;
     job_html_url := "https://github.com/o/r/actions/jobs"%string;
     job_steps := Some steps |}.

(** The same run listed with another status. *)
Definition with_status (status : option string) (r : Run) : Run :=
  {| run_id := run_id r; run_status := status;
     run_conclusion := run_conclusion r;
     run_display_title := run_display_title r; run_name := run_name r;
     run_html_url := run_html_url r |}.

(** A platform whose three listings answer [inp], [que] and [wai], and whose
    runs all have the jobs [js]. *)
Definition octokit (inp que wai : list Run) (js : list Job) : Octokit :=
  {| listWorkflowRuns := fun _ _ _ _ s =>
       match s with in_progress => inp | queued => que | waiting => wai end;
     listJobsForWorkflowRun := fun _ _ _ => js;
     getJobForWorkflowRun := fun _ _ id =>
       match List.find (fun j => job_id j =? id) js with
       | Some j => j
       | None => mkJob id "" "queued" []
       end |}.

(** The configuration of the spec's scenarios: current run 10, poll interval
    15 seconds, nothing optional set. *)
Definition input0 : Input :=
  {| owner := "o"; repo := "r"; branch := "main"; sameBranchOnly := false;
     runId := 10; queueName := None; jobToWaitFor := None; stepToWaitFor := None;
     pollIntervalSeconds := 15; initialWaitSeconds := None;
     continueAfterSeconds := None; abortAfterSeconds := None;
     exponentialBackoffRetries := false |}.

Definition with_continueAfterSeconds (v : option Z) (i : Input) : Input :=
  {| owner := owner i; repo := repo i; branch := branch i;
     sameBranchOnly := sameBranchOnly i; runId := runId i;
     queueName := queueName i; jobToWaitFor := jobToWaitFor i;
     stepToWaitFor := stepToWaitFor i;
     pollIntervalSeconds := pollIntervalSeconds i;
     initialWaitSeconds := initialWaitSeconds i;
     continueAfterSeconds := v; abortAfterSeconds := abortAfterSeconds i;
     exponentialBackoffRetries := exponentialBackoffRetries i |}.

Definition with_abortAfterSeconds (v : option Z) (i : Input) : Input :=
  {| owner := owner i; repo := repo i; branch := branch i;
     sameBranchOnly := sameBranchOnly i; runId := runId i;
     queueName := queueName i; jobToWaitFor := jobToWaitFor i;
     stepToWaitFor := stepToWaitFor i;
     pollIntervalSeconds := pollIntervalSeconds i;
     initialWaitSeconds := initialWaitSeconds i;
     continueAfterSeconds := continueAfterSeconds i; abortAfterSeconds := v;
     exponentialBackoffRetries := exponentialBackoffRetries i |}.

Definition with_targets (job step : option string) (i : Input) : Input :=
  {| owner := owner i; repo := repo i; branch := branch i;
     sameBranchOnly := sameBranchOnly i; runId := runId i;
     queueName := queueName i; jobToWaitFor := job; stepToWaitFor := step;
     pollIntervalSeconds := pollIntervalSeconds i;
     initialWaitSeconds := initialWaitSeconds i;
     continueAfterSeconds := continueAfterSeconds i;
     abortAfterSeconds := abortAfterSeconds i;
     exponentialBackoffRetries := exponentialBackoffRetries i |}.

Definition with_initialWaitSeconds (v : option Z) (i : Input) : Input :=
  {| owner := owner i; repo := repo i; branch := branch i;
     sameBranchOnly := sameBranchOnly i; runId := runId i;
     queueName := queueName i; jobToWaitFor := jobToWaitFor i;
     stepToWaitFor := stepToWaitFor i;
     pollIntervalSeconds := pollIntervalSeconds i;
     initialWaitSeconds := v;
     continueAfterSeconds := continueAfterSeconds i;
     abortAfterSeconds := abortAfterSeconds i;
     exponentialBackoffRetries := exponentialBackoffRetries i |}.

Definition with_backoff (b : bool) (i : Input) : Input :=
  {| owner := owner i; repo := repo i; branch := branch i;
     sameBranchOnly := sameBranchOnly i; runId := runId i;
     queueName := queueName i; jobToWaitFor := jobToWaitFor i;
     stepToWaitFor := stepToWaitFor i;
     pollIntervalSeconds := pollIntervalSeconds i;
     initialWaitSeconds := initialWaitSeconds i;
     continueAfterSeconds := continueAfterSeconds i;
     abortAfterSeconds := abortAfterSeconds i;
     exponentialBackoffRetries := b |}.

Definition with_pollIntervalSeconds (v : Z) (i : Input) : Input :=
  {| owner := owner i; repo := repo i; branch := branch i;
     sameBranchOnly := sameBranchOnly i; runId := runId i;
     queueName := queueName i; jobToWaitFor := jobToWaitFor i;
     stepToWaitFor := stepToWaitFor i;
     pollIntervalSeconds := v;
     initialWaitSeconds := initialWaitSeconds i;
     continueAfterSeconds := continueAfterSeconds i;
     abortAfterSeconds := abortAfterSeconds i;
     exponentialBackoffRetries := exponentialBackoffRetries i |}.

(** A Waiter with exponential backoff, base interval [b], at attempt [a]. *)
Definition backoff_Waiter (b a : Z) : Waiter :=
  {| input := with_backoff true (with_pollIntervalSeconds b input0);
     workflowId := 1; attempt := a |}.

(** Platforms of the scenarios: run 5 concluded with success; run 7 in
    progress; run 7 in progress with a job "build" of the given status and
    steps; nothing listed. *)
Definition run5_succeeded : Octokit :=
  octokit [mkRun 5 (Some "completed"%string) (Some "success"%string)] [] [] [].

Definition run7_running : Octokit :=
  octokit [mkRun 7 (Some "in_progress"%string) None] [] [] [].

Definition run7_build (status : string) (steps : list Step) : Octokit :=
  octokit [mkRun 7 (Some "in_progress"%string) None] [] []
    [mkJob 70 "build" status steps].

Definition no_runs : Octokit := octokit [] [] [] [].

(** Run 5 answered by two of the three status listings: it left the queue
    while the listings were being fetched. *)
Definition run5_twice : Octokit :=
  octokit [mkRun 5 (Some "in_progress"%string) None]
          [mkRun 5 (Some "queued"%string) None] [] [].

(** What a tick shows: everything but the configuration it carries along. *)
Definition observe (t : Tick) : Outcome * Completion * list Effect * Z :=
  (outcome t, completion t, effects t, attempt (this' t)).

Definition with_input (i : Input) (this : Waiter) : Waiter :=
  {| input := i; workflowId := workflowId this; attempt := attempt this |}.

(** The total time slept, in milliseconds. *)
Definition slept (effs : list Effect) : Z := fold_right Z.add 0 (sleeps effs).

(** The result of a call whose last tick completes with [c]. *)
Definition result_of (c : Completion) : Result :=
  match c with
  | Return v => Resolved v
  | Throw s => Rejected s
  | Recurse s => Polling s
  end.

(** The runs bearing the id [k]. *)
Definition has_id (k : Z) (r : Run) : bool := run_id r =? k.

(** [s] occurs in the optional string [t]. *)
Definition occurs_in (s : string) (t : option string) : Prop :=
  exists u pre post, t = Some u /\ u = (pre ++ s ++ post)%string.

(** The ticks of a call of [wait], in order: [wait] with the same tail
    calls, keeping each tick instead of its effects alone. *)
Fixpoint ticks_of (ticks : nat) (platform : nat -> Octokit) (n : nat) (this : Waiter)
    (secondsSoFar : option Z) : list Tick :=
  let t := wait_tick (platform n) this secondsSoFar in
  match completion t with
  | Recurse s =>
      match ticks with
      | O => [t]
      | S ticks' => t :: ticks_of ticks' platform (S n) (this' t) (Some s)
      end
  | _ => [t]
  end.

Definition with_queueName (v : option string) (i : Input) : Input :=
  {| owner := owner i; repo := repo i; branch := branch i;
     sameBranchOnly := sameBranchOnly i; runId := runId i;
     queueName := v; jobToWaitFor := jobToWaitFor i;
     stepToWaitFor := stepToWaitFor i;
     pollIntervalSeconds := pollIntervalSeconds i;
     initialWaitSeconds := initialWaitSeconds i;
     continueAfterSeconds := continueAfterSeconds i;
     abortAfterSeconds := abortAfterSeconds i;
     exponentialBackoffRetries := exponentialBackoffRetries i |}.

(** Run 5, queued, listed without display title and without name. *)
Definition run5_untitled : Run :=
  {| run_id := 5; run_status := Some "queued"%string; run_conclusion := None;
     run_display_title := None; run_name := None;
     run_html_url := "https://github.com/o/r/actions/runs"%string |}.

(** Six runs over the three listings: 5 and 12 in progress, 7 and the
    successful 3 queued, 9 and the failed 8 waiting. *)
Definition six_runs : Octokit :=
  octokit [mkRun 5 (Some "in_progress"%string) None;
           mkRun 12 (Some "in_progress"%string) None]
          [mkRun 7 (Some "queued"%string) None;
           mkRun 3 (Some "queued"%string) (Some "success"%string)]
          [mkRun 9 (Some "waiting"%string) None;
           mkRun 8 (Some "waiting"%string) (Some "failure"%string)]
          [].

(** ** The client's requests when they may fail

    [wait] awaits the client's calls without catching: a request that fails
    rejects the call of [wait] with the client's error.  The definitions
    below follow [github.ts] and [wait.ts] again with requests that answer
    or fail; the error itself is not looked at by the sources and is left
    out. *)

Inductive Attempted (A : Type) : Type :=
| Answered (a : A)
| RequestFailed.
Arguments Answered {A} a.
Arguments RequestFailed {A}.

Record Requests := {
  tryListWorkflowRuns :
    string -> string -> option string -> Z -> RunStatus -> Attempted (list Run);
  tryListJobsForWorkflowRun : string -> string -> Z -> Attempted (list Job);
  tryGetJobForWorkflowRun : string -> string -> Z -> Attempted Job
}.

(** [runs]: [Promise.all] rejects when one of the three listings does. *)
Definition tryRuns (q : Requests) (owner repo : string) (branch : option string)
    (workflow_id : Z) : Attempted (list Run) :=
  let branch := if JS.truthy_str branch then branch else None in
  match tryListWorkflowRuns q owner repo branch workflow_id in_progress,
        tryListWorkflowRuns q owner repo branch workflow_id queued,
        tryListWorkflowRuns q owner repo branch workflow_id waiting with
  | Answered in_progress_runs, Answered queued_runs, Answered waiting_runs =>
      Answered (in_progress_runs ++ queued_runs ++ waiting_runs)
  | _, _, _ => RequestFailed
  end.

Definition tryJobs (q : Requests) (owner repo : string) (run_id : Z)
    : Attempted (list Job) :=
  tryListJobsForWorkflowRun q owner repo run_id.

Definition trySteps (q : Requests) (owner repo : string) (job_id : Z)
    : Attempted (list Step) :=
  match tryGetJobForWorkflowRun q owner repo job_id with
  | Answered job =>
      Answered (match job_steps job with
                | Some steps => steps
                | None => []
                end)
  | RequestFailed => RequestFailed
  end.

(** Lines 173-194 with a steps request that may fail; [Answered None] when
    control falls through to the job test. *)
Definition tryStepDecision (q : Requests) (this : Waiter) (secondsSoFar : option Z)
    (job : option Job) : Attempted (option Tick) :=
  match stepToWaitFor (input this), job with
  | Some stepName, Some job =>
      if JS.truthy_str (Some stepName) then
        match trySteps q (owner (input this)) (repo (input this)) (job_id job) with
        | Answered steps =>
            Answered
              match JS.find (fun step => String.eqb (step_name step) stepName) steps with
              | Some step =>
                  if negb (String.eqb (step_status step) "completed")
                  then Some (awaitCompletion WaitingStep this secondsSoFar)
                  else Some (completed this)
              | None => None
              end
        | RequestFailed => RequestFailed
        end
      else Answered None
  | _, _ => Answered None
  end.

(** Lines 168-213 with requests that may fail. *)
Definition tryJobDecision (q : Requests) (this : Waiter) (secondsSoFar : option Z)
    (previousRun : Run) : Attempted (option Tick) :=
  match jobToWaitFor (input this) with
  | Some jobName =>
      if JS.truthy_str (Some jobName) then
        match tryJobs q (owner (input this)) (repo (input this)) (run_id previousRun) with
        | Answered jobs =>
            let job := JS.find (fun job => String.eqb (job_name job) jobName) jobs in
            match tryStepDecision q this secondsSoFar job with
            | Answered (Some t) => Answered (Some t)
            | Answered None =>
                Answered
                  match job with
                  | Some job =>
                      if negb (String.eqb (job_status job) "completed")
                      then Some (awaitCompletion WaitingJob this secondsSoFar)
                      else Some (completed this)
                  | None => None
                  end
            | RequestFailed => RequestFailed
            end
        | RequestFailed => RequestFailed
        end
      else Answered None
  | None => Answered None
  end.

Definition tryFetchRuns (q : Requests) (this : Waiter) : Attempted (list Run) :=
  tryRuns q (owner (input this)) (repo (input this))
    (if sameBranchOnly (input this) then Some (branch (input this)) else None)
    (workflowId this).

(** One call of [wait] up to its return, throw or tail call, or up to the
    request that fails: no output is set and no field written before a
    request of the same tick. *)
Definition try_wait_tick (q : Requests) (this : Waiter) (secondsSoFar : option Z)
    : Attempted Tick :=
  if continues (input this) secondsSoFar then
    Answered
      {| outcome := Continued;
         completion := Return (Some (JS.or_undef secondsSoFar 0));
         effects := [SetOutput "force_continued" "1"];
         this' := this |}
  else if aborts (input this) secondsSoFar then
    Answered
      {| outcome := Aborted;
         completion := Throw secondsSoFar;
         effects := [SetOutput "force_continued" ""];
         this' := this |}
  else
    match tryFetchRuns q this with
    | RequestFailed => RequestFailed
    | Answered runs =>
        match previousRuns (input this) runs with
        | [] =>
            if retriesInitially (input this) secondsSoFar then
              let i := match initialWaitSeconds (input this) with
                       | Some i => i
                       | None => 0
                       end in
              Answered
                {| outcome := InitialDelay;
                   completion := Recurse (JS.or_undef secondsSoFar 0 + i);
                   effects := [SetOutput "force_continued" ""; Sleep (i * 1000)];
                   this' := this |}
            else
              Answered
                {| outcome := Proceeded;
                   completion := Return None;
                   effects := [SetOutput "force_continued" ""];
                   this' := this |}
        | previousRun :: _ =>
            match tryJobDecision q this secondsSoFar previousRun with
            | Answered (Some t) => Answered t
            | Answered None => Answered (awaitCompletion WaitingFullRun this secondsSoFar)
            | RequestFailed => RequestFailed
            end
        end
    end.

(** How a whole call of [wait] ends when requests may fail: as before, or
    rejected with the client's error. *)
Inductive Ended :=
| Ended_with (r : Result)
| ClientError.

Fixpoint try_wait (ticks : nat) (platform : nat -> Requests) (n : nat) (this : Waiter)
    (secondsSoFar : option Z) : Ended * list Effect * Waiter :=
  match try_wait_tick (platform n) this secondsSoFar with
  | RequestFailed => (ClientError, [], this)
  | Answered t =>
      match completion t with
      | Return v => (Ended_with (Resolved v), effects t, this' t)
      | Throw s => (Ended_with (Rejected s), effects t, this' t)
      | Recurse s =>
          match ticks with
          | O => (Ended_with (Polling s), effects t, this' t)
          | S ticks' =>
              let '(r, effs, w) := try_wait ticks' platform (S n) (this' t) (Some s) in
              (r, effects t ++ effs, w)
          end
      end
  end.

(** The requests of a platform that answers. *)
Definition answering (o : Octokit) : Requests :=
  {| tryListWorkflowRuns := fun ow r b w s => Answered (listWorkflowRuns o ow r b w s);
     tryListJobsForWorkflowRun := fun ow r id => Answered (listJobsForWorkflowRun o ow r id);
     tryGetJobForWorkflowRun := fun ow r id => Answered (getJobForWorkflowRun o ow r id) |}.

(** The platform that answers what the requests answer; what it holds
    where a request fails is never read by a tick that ends. *)
Definition answers_of (q : Requests) : Octokit :=
  {| listWorkflowRuns := fun ow r b w s =>
       match tryListWorkflowRuns q ow r b w s with
       | Answered l => l
       | RequestFailed => []
       end;
     listJobsForWorkflowRun := fun ow r id =>
       match tryListJobsForWorkflowRun q ow r id with
       | Answered l => l
       | RequestFailed => []
       end;
     getJobForWorkflowRun := fun ow r id =>
       match tryGetJobForWorkflowRun q ow r id with
       | Answered j => j
       | RequestFailed => mkJob id "" "queued" []
       end |}.

(** Requests that all fail. *)
Definition unreachable : Requests :=
  {| tryListWorkflowRuns := fun _ _ _ _ _ => RequestFailed;
     tryListJobsForWorkflowRun := fun _ _ _ => RequestFailed;
     tryGetJobForWorkflowRun := fun _ _ _ => RequestFailed |}.

(** Reduce the field accesses of an unfolded tick. *)
Ltac tick_fields :=
  cbn [input workflowId attempt with_input with_continueAfterSeconds
       with_abortAfterSeconds set_attempt
       owner repo branch sameBranchOnly runId queueName jobToWaitFor
       stepToWaitFor pollIntervalSeconds initialWaitSeconds
       continueAfterSeconds abortAfterSeconds exponentialBackoffRetries
       outcome completion effects this' fst snd
       JS.truthy_num Z.eqb negb andb].

(** Case analysis on the matches of an unfolded tick, innermost first. *)
Ltac tick_cases :=
  repeat (tick_fields;
          match goal with
          | |- context [match ?x with _ => _ end] =>
              lazymatch x with
              | context [match _ with _ => _ end] => fail
              | _ => destruct x eqn:?
              end
          end);
  tick_fields.

(** * Properties *)

(** ** JavaScript primitives *)

Section SortFacts.
Context {A : Type} (cmp : A -> A -> Z).

Lemma insert_perm (x : A) (l : list A) : Permutation (JS.insert cmp x l) (x :: l).
Proof.
  induction l as [|y l IH]; simpl.
  - apply Permutation_refl.
  - destruct (cmp x y <=? 0).
    + apply Permutation_refl.
    + eapply perm_trans; [apply perm_skip, IH | apply perm_swap].
Qed.

Lemma sort_perm (l : list A) : Permutation (JS.sort cmp l) l.
Proof.
  induction l as [|x l IH]; simpl.
  - constructor.
  - eapply perm_trans; [apply insert_perm | apply perm_skip, IH].
Qed.

Lemma sort_In (l : list A) (x : A) : In x (JS.sort cmp l) <-> In x l.
Proof.
  split; apply Permutation_in; [|apply Permutation_sym]; apply sort_perm.
Qed.
End SortFacts.

Lemma insert_sorted (x : Run) (l : list Run) :
  StronglySorted id_ge l -> StronglySorted id_ge (JS.insert by_id_desc x l).
Proof.
  induction l as [|y l IH]; simpl; intros Hs.
  - repeat constructor.
  - inversion Hs as [|? ? Hl Hy]; subst.
    destruct (by_id_desc x y <=? 0) eqn:E; unfold by_id_desc in E.
    + apply Z.leb_le in E. constructor; [exact Hs|].
      constructor; [unfold id_ge; lia|].
      eapply Forall_impl; [|exact Hy]. unfold id_ge. intros; lia.
    + apply Z.leb_gt in E. constructor; [apply IH, Hl|].
      eapply Permutation_Forall; [apply Permutation_sym, insert_perm|].
      constructor; [unfold id_ge; lia | exact Hy].
  Qed.

Lemma sort_sorted (l : list Run) : StronglySorted id_ge (JS.sort by_id_desc l).
Proof.
  induction l as [|x l IH]; simpl.
  - constructor.
  - apply insert_sorted, IH.
Qed.

Lemma sorted_distinct_strict (l : list Run) :
  StronglySorted id_ge l -> NoDup (map run_id l) -> StronglySorted id_gt l.
Proof.
  induction 1 as [|x l Hs IH Hx]; simpl; intros Hnd.
  - constructor.
  - inversion Hnd as [|? ? Hnotin Hnd']; subst.
    constructor; [apply IH, Hnd'|].
    rewrite Forall_forall in *. intros y Hy.
    specialize (Hx y Hy). unfold id_ge in Hx. unfold id_gt.
    assert (run_id x <> run_id y).
    { intros Heq. apply Hnotin. rewrite Heq. apply in_map, Hy. }
    lia.
Qed.

Lemma kept_ids_distinct (keep : Run -> bool) (runs : list Run) :
  NoDup (map run_id runs) -> NoDup (map run_id (filter keep runs)).
Proof.
  intros Hnd. induction runs as [|r runs IH]; simpl; [constructor|].
  simpl in Hnd. apply NoDup_cons_iff in Hnd. destruct Hnd as [Hfresh Hnd].
  destruct (keep r); simpl; [|auto].
  apply NoDup_cons; [|auto].
  intros Hin. apply Hfresh.
  apply in_map_iff in Hin. destruct Hin as (r' & Hid & Hin).
  apply filter_In in Hin. rewrite <- Hid. apply in_map. tauto.
Qed.

(** [includes] finds exactly the occurrences of the substring. *)
Lemma prefix_app (sub s : string) :
  String.prefix sub s = true <-> exists post, s = (sub ++ post)%string.
Proof.
  revert s. induction sub as [|c sub IH]; intros s.
  - split; [intros _; exists s; reflexivity | intros _; destruct s; reflexivity].
  - destruct s as [|d s]; simpl.
    + split; [discriminate | intros [p Hp]; discriminate].
    + destruct (Ascii.ascii_dec c d) as [->|Hne].
      * rewrite IH. split; intros [p Hp]; exists p; [now rewrite Hp | now inversion Hp].
      * split; [discriminate | intros [p Hp]; simpl in Hp; congruence].
Qed.

Lemma includes_occurs (s sub : string) :
  JS.includes s sub = true <-> exists pre post, s = (pre ++ sub ++ post)%string.
Proof.
  induction s as [|c s IH].
  - cbn [JS.includes]. rewrite orb_false_r, prefix_app. split.
    + intros [p Hp]. exists EmptyString, p. exact Hp.
    + intros [[|d pre] [post H]]; [exists post; exact H | discriminate].
  - cbn [JS.includes]. rewrite orb_true_iff, prefix_app, IH. split.
    + intros [[p Hp] | [pre [post H]]].
      * exists EmptyString, p. exact Hp.
      * exists (String c pre), post. simpl. now rewrite H.
    + intros [[|d pre] [post H]].
      * left. exists post. exact H.
      * right. simpl in H. inversion H; subst. exists pre, post. reflexivity.
Qed.

Lemma filter_twice {A : Type} (f g : A -> bool) (l : list A) :
  filter g (filter f l) = filter (fun x => f x && g x) l.
Proof.
  induction l as [|x l IH]; simpl; [reflexivity|].
  destruct (f x); simpl; [destruct (g x)|]; now rewrite IH.
Qed.

Lemma filter_all {A : Type} (l : list A) : filter (fun _ => true) l = l.
Proof.
  induction l as [|x l IH]; simpl; [reflexivity | now rewrite IH].
Qed.

(** The three staged filters keep what the spec's predicate keeps. *)
Lemma previousRuns_filter (input : Input) (runs : list Run) :
  previousRuns input runs = JS.sort by_id_desc (filter (spec_relevant input) runs).
Proof.
  unfold previousRuns. f_equal.
  assert (Hq : (if JS.truthy_str (queueName input)
                then match queueName input with
                     | Some q => filter (matchesQueue q) runs
                     | None => runs
                     end
                else runs)
               = filter (fun run =>
                   match queueName input with
                   | Some q =>
                       if String.eqb q "" then true
                       else JS.opt_includes (run_display_title run) q
                            || JS.opt_includes (run_name run) q
                   | None => true
                   end) runs).
  { destruct (queueName input) as [q|]; simpl.
    - destruct (String.eqb q ""); simpl; [now rewrite filter_all | reflexivity].
    - now rewrite filter_all. }
  rewrite Hq, !filter_twice. apply filter_ext. intros run.
  unfold spec_relevant, isSuccessful. now rewrite andb_assoc.
Qed.

(** ** The filter and ordering pipeline *)

(** C2, as the code has it: the relevant-previous-run list is the fetched
    runs filtered by the spec's three conditions (a non-empty queue name
    must occur in the display title or the name, the id is strictly less
    than the current run's, the conclusion is not "success") and sorted by
    id, descending.  It is a rearrangement of the runs kept, holds no run
    with id greater than or equal to the current run id, and is sorted
    descending by id: strictly so when the fetched runs have pairwise
    distinct ids, and with equal ids next to each other otherwise. *)
Theorem previousRuns_pipeline (input : Input) (runs : list Run) :
  previousRuns input runs = JS.sort by_id_desc (filter (spec_relevant input) runs)
  /\ Permutation (previousRuns input runs) (filter (spec_relevant input) runs)
  /\ (forall r, In r (previousRuns input runs) -> run_id r < runId input)
  /\ StronglySorted id_ge (previousRuns input runs)
  /\ (NoDup (map run_id runs) -> StronglySorted id_gt (previousRuns input runs)).
Proof.
  rewrite previousRuns_filter. repeat split.
  - apply sort_perm.
  - intros r Hr. apply sort_In, filter_In in Hr. destruct Hr as [_ Hr].
    unfold spec_relevant in Hr. apply andb_prop in Hr. destruct Hr as [Hr _].
    apply andb_prop in Hr. destruct Hr as [_ Hr]. now apply Z.ltb_lt in Hr.
  - apply sort_sorted.
  - intros Hnd. apply sorted_distinct_strict; [apply sort_sorted|].
    eapply Permutation_NoDup.
    + apply Permutation_map, Permutation_sym, sort_perm.
    + apply kept_ids_distinct, Hnd.
Qed.

Lemma previousRuns_pipeline_witness :
  NoDup (map run_id (fetchRuns six_runs (new_Waiter 1 input0)))
  /\ map run_id (fetchRuns six_runs (new_Waiter 1 input0)) = [5; 12; 7; 3; 9; 8]
  /\ map run_id (previousRuns input0 (fetchRuns six_runs (new_Waiter 1 input0)))
     = [9; 8; 7; 5]
  /\ StronglySorted id_gt
       (previousRuns input0 (fetchRuns six_runs (new_Waiter 1 input0))).
Proof.
  assert (Hnd : NoDup (map run_id (fetchRuns six_runs (new_Waiter 1 input0)))).
  { repeat constructor; simpl; intuition discriminate. }
  split; [exact Hnd|]. split; [reflexivity|]. split; [reflexivity|].
  apply (previousRuns_pipeline input0
           (fetchRuns six_runs (new_Waiter 1 input0))), Hnd.
Defined.

(** C2 fails as stated on two inputs.  A run answered by two of the status
    listings is kept twice, and the list is then not strictly descending.
    And with the empty string as queue name the filter is not applied: a run
    that has neither display title nor name, so that neither contains the
    queue name, is kept all the same. *)
Lemma previousRuns_not_as_stated :
  (previousRuns input0 (fetchRuns run5_twice (new_Waiter 1 input0))
   = [mkRun 5 (Some "in_progress"%string) None; mkRun 5 (Some "queued"%string) None]
   /\ ~ StronglySorted id_gt
          (previousRuns input0 (fetchRuns run5_twice (new_Waiter 1 input0))))
  /\ (queueName (with_queueName (Some EmptyString) input0) = Some EmptyString
      /\ ~ occurs_in EmptyString (run_display_title run5_untitled)
      /\ ~ occurs_in EmptyString (run_name run5_untitled)
      /\ previousRuns (with_queueName (Some EmptyString) input0) [run5_untitled]
         = [run5_untitled]).
Proof.
  split.
  - split; [reflexivity|].
    intros Hs. inversion Hs as [|? ? _ Hall]; subst.
    inversion Hall as [|? ? Hgt _]; subst.
    unfold id_gt in Hgt. simpl in Hgt. lia.
  - split; [reflexivity|]. split; [|split; [|reflexivity]].
    + intros (u & _ & _ & Hu & _). discriminate Hu.
    + intros (u & _ & _ & Hu & _). discriminate Hu.
Qed.

(** ** One tick of the Waiter *)

Lemma or_undef_elapsed (e : Z) : JS.or_undef (Some e) 0 = e.
Proof.
  unfold JS.or_undef, JS.or_num. destruct (e =? 0) eqn:E; [|reflexivity].
  apply Z.eqb_eq in E. now subst.
Qed.

(** The interval handed to [pollAndWait] is the one it uses: its
    [pollingInterval || pollIntervalSeconds] only replaces a zero interval,
    and a zero interval comes from a zero base. *)
Lemma intervalToUse_backoff (base a : Z) :
  JS.or_undef (Some (base * JS.or_num (2 * a) 1)) base = base * JS.or_num (2 * a) 1.
Proof.
  unfold JS.or_undef. unfold JS.or_num at 1.
  destruct (base * JS.or_num (2 * a) 1 =? 0) eqn:E; [|reflexivity].
  apply Z.eqb_eq in E. rewrite E.
  apply Z.mul_eq_0 in E. destruct E as [E|E]; [exact E|].
  unfold JS.or_num in E. destruct (2 * a =? 0) eqn:E2; [discriminate|].
  apply Z.eqb_neq in E2. contradiction.
Qed.

Lemma intervalToUse_base (base : Z) : JS.or_undef (Some base) base = base.
Proof.
  unfold JS.or_undef, JS.or_num. now destruct (base =? 0).
Qed.

(** [2 * attempt || 1] is [max(1, 2 * attempt)] as long as the counter has
    not gone below zero. *)
Lemma or_num_max (a : Z) : 0 <= a -> JS.or_num (2 * a) 1 = Z.max 1 (2 * a).
Proof.
  intros Ha. unfold JS.or_num. destruct (2 * a =? 0) eqn:E.
  - apply Z.eqb_eq in E. lia.
  - apply Z.eqb_neq in E. lia.
Qed.

(** What a waiting branch does, whichever of the three it is. *)
Lemma awaitCompletion_observe (o : Outcome) (this : Waiter) (secondsSoFar : option Z) :
  let base := pollIntervalSeconds (input this) in
  let interval :=
    if exponentialBackoffRetries (input this)
    then base * JS.or_num (2 * attempt this) 1 else base in
  observe (awaitCompletion o this secondsSoFar)
  = (o, Recurse (JS.or_undef secondsSoFar 0 + interval), [Sleep (interval * 1000)],
     if exponentialBackoffRetries (input this) then attempt this + 1 else attempt this)
  /\ input (this' (awaitCompletion o this secondsSoFar)) = input this
  /\ workflowId (this' (awaitCompletion o this secondsSoFar)) = workflowId this.
Proof.
  unfold awaitCompletion, pollAndWait, observe.
  destruct (exponentialBackoffRetries (input this));
    cbn -[JS.or_undef JS.or_num Z.mul Z.add].
  - rewrite intervalToUse_backoff. auto.
  - rewrite intervalToUse_base. auto.
Qed.

(** The branches of [stepDecision] and [jobDecision]. *)
Lemma stepDecision_shape github this secondsSoFar job t :
  stepDecision github this secondsSoFar job = Some t ->
  t = completed this \/ t = awaitCompletion WaitingStep this secondsSoFar.
Proof.
  unfold stepDecision.
  destruct (stepToWaitFor (input this)) as [s|]; [|discriminate].
  destruct job as [j|]; [|discriminate].
  destruct (JS.truthy_str (Some s)); [|discriminate].
  destruct (JS.find _ _) as [st|]; [|discriminate].
  destruct (negb _); intros [= <-]; auto.
Qed.

Lemma jobDecision_shape github this secondsSoFar previousRun t :
  jobDecision github this secondsSoFar previousRun = Some t ->
  t = completed this
  \/ t = awaitCompletion WaitingStep this secondsSoFar
  \/ t = awaitCompletion WaitingJob this secondsSoFar.
Proof.
  unfold jobDecision.
  destruct (jobToWaitFor (input this)) as [j|]; [|discriminate].
  destruct (JS.truthy_str (Some j)); [|discriminate].
  destruct (stepDecision _ _ _ _) as [t'|] eqn:Hs.
  - intros [= <-]. apply stepDecision_shape in Hs. tauto.
  - destruct (JS.find _ _) as [jb|]; [|discriminate].
    destruct (negb _); intros [= <-]; auto.
Qed.

(** Every tick takes one of six shapes, decided by the two guards, the
    relevant-previous-run list and the target lookups. *)
Lemma wait_tick_shape (github : Octokit) (this : Waiter) (secondsSoFar : option Z) :
  let t := wait_tick github this secondsSoFar in
  let P := previousRuns (input this) (fetchRuns github this) in
  (continues (input this) secondsSoFar = true
   /\ t = {| outcome := Continued;
             completion := Return (Some (JS.or_undef secondsSoFar 0));
             effects := [SetOutput "force_continued" "1"];
             this' := this |})
  \/ (continues (input this) secondsSoFar = false
      /\ aborts (input this) secondsSoFar = true
      /\ t = {| outcome := Aborted;
                completion := Throw secondsSoFar;
                effects := [SetOutput "force_continued" ""];
                this' := this |})
  \/ (continues (input this) secondsSoFar = false
      /\ aborts (input this) secondsSoFar = false
      /\ ((P = []
           /\ exists i, initialWaitSeconds (input this) = Some i
           /\ retriesInitially (input this) secondsSoFar = true
           /\ t = {| outcome := InitialDelay;
                     completion := Recurse (JS.or_undef secondsSoFar 0 + i);
                     effects := [SetOutput "force_continued" ""; Sleep (i * 1000)];
                     this' := this |})
          \/ (P = []
              /\ retriesInitially (input this) secondsSoFar = false
              /\ t = {| outcome := Proceeded;
                        completion := Return None;
                        effects := [SetOutput "force_continued" ""];
                        this' := this |})
          \/ (P <> [] /\ t = completed this)
          \/ (P <> [] /\ exists o, is_waiting o = true
                         /\ t = awaitCompletion o this secondsSoFar))).
Proof.
  cbv zeta. unfold wait_tick.
  destruct (continues (input this) secondsSoFar); [left; auto|].
  destruct (aborts (input this) secondsSoFar); [right; left; auto|].
  right; right. repeat split.
  destruct (previousRuns (input this) (fetchRuns github this)) as [|r rest] eqn:HP.
  - destruct (retriesInitially (input this) secondsSoFar) eqn:HI.
    + left. split; [reflexivity|].
      unfold retriesInitially in HI.
      destruct (initialWaitSeconds (input this)) as [i|]; [|discriminate].
      exists i. auto.
    + right; left. auto.
  - right; right.
    destruct (jobDecision github this secondsSoFar r) as [t|] eqn:HJ.
    + apply jobDecision_shape in HJ. destruct HJ as [->|[->| ->]].
      * left. split; [discriminate | reflexivity].
      * right. split; [discriminate|]. exists WaitingStep. auto.
      * right. split; [discriminate|]. exists WaitingJob. auto.
    + right. split; [discriminate|]. exists WaitingFullRun. auto.
Qed.

(** A tick that proceeds always completes by a bare [return;]. *)
Lemma proceeded_completion (github : Octokit) (this : Waiter) (secondsSoFar : option Z) :
  outcome (wait_tick github this secondsSoFar) = Proceeded ->
  completion (wait_tick github this secondsSoFar) = Return None.
Proof.
  destruct (wait_tick_shape github this secondsSoFar)
    as [[_ ->]|[(_ & _ & ->)|(_ & _ & [(_ & i & _ & _ & ->)|[(_ & _ & ->)|[(_ & ->)|(_ & o & Ho & ->)]]])]];
    cbn; try discriminate; try reflexivity.
  destruct (awaitCompletion_observe o this secondsSoFar) as [Hobs _].
  unfold observe in Hobs. injection Hobs as Hout _ _ _.
  rewrite Hout. intros ->. discriminate.
Qed.

(** A tick that proceeds clears the force-continued output when the
    relevant-previous-run list is empty, and has no effect at all when the
    target step or job is found completed. *)
Lemma proceeded_effects (github : Octokit) (this : Waiter) (secondsSoFar : option Z) :
  outcome (wait_tick github this secondsSoFar) = Proceeded ->
  (previousRuns (input this) (fetchRuns github this) = []
   /\ effects (wait_tick github this secondsSoFar) = [SetOutput "force_continued" ""])
  \/ (previousRuns (input this) (fetchRuns github this) <> []
      /\ effects (wait_tick github this secondsSoFar) = []).
Proof.
  destruct (wait_tick_shape github this secondsSoFar)
    as [[_ ->]|[(_ & _ & ->)|(_ & _ & [(_ & i & _ & _ & ->)|[(HP & _ & ->)|[(HP & ->)|(_ & o & Ho & ->)]]])]];
    cbn; try discriminate; auto.
  destruct (awaitCompletion_observe o this secondsSoFar) as [Hobs _].
  unfold observe in Hobs. injection Hobs as Hout _ _ _.
  rewrite Hout. intros ->. discriminate.
Qed.

(** The output is set to '1' only by a tick that returns the elapsed
    seconds, and so only by the last tick of a call of [wait]. *)
Lemma set_one_returns (github : Octokit) (this : Waiter) (secondsSoFar : option Z) :
  In (SetOutput "force_continued" "1") (effects (wait_tick github this secondsSoFar)) ->
  completion (wait_tick github this secondsSoFar)
  = Return (Some (JS.or_undef secondsSoFar 0)).
Proof.
  destruct (wait_tick_shape github this secondsSoFar)
    as [[_ ->]|[(_ & _ & ->)|(_ & _ & [(_ & i & _ & _ & ->)|[(_ & _ & ->)|[(_ & ->)|(_ & o & _ & ->)]]])]];
    cbn [effects completion completed In].
  - reflexivity.
  - intros [H|[]]. discriminate H.
  - intros [H|[H|[]]]; discriminate H.
  - intros [H|[]]. discriminate H.
  - intros [].
  - destruct (awaitCompletion_observe o this secondsSoFar) as [Hobs _].
    unfold observe in Hobs. injection Hobs as _ _ He _.
    rewrite He. intros [H|[]]. discriminate H.
Qed.

Lemma wait_set_one_resolves (ticks : nat) :
  forall (platform : nat -> Octokit) (n : nat) (this : Waiter) (secondsSoFar : option Z),
    In (SetOutput "force_continued" "1")
      (snd (fst (wait ticks platform n this secondsSoFar))) ->
    exists e, fst (fst (wait ticks platform n this secondsSoFar)) = Resolved (Some e).
Proof.
  induction ticks as [|k IH]; intros platform n this s; cbn [wait];
    pose proof (set_one_returns (platform n) this s) as Hone;
    destruct (completion (wait_tick (platform n) this s)) as [v|e|s'] eqn:Hc;
    cbn [fst snd]; intros Hin;
    try (specialize (Hone Hin); injection Hone as ->; eexists; reflexivity);
    try (specialize (Hone Hin); discriminate Hone).
  specialize (IH platform (S n) (this' (wait_tick (platform n) this s)) (Some s')).
  destruct (wait k platform (S n) _ _) as [[r effs] w]. cbn [fst snd] in *.
  apply in_app_or in Hin. destruct Hin as [Hin|Hin].
  - specialize (Hone Hin). discriminate Hone.
  - apply IH, Hin.
Qed.

(** The attempt counter never goes down, so it stays at or above the 0 a
    new Waiter starts with. *)
Lemma attempt_grows (github : Octokit) (this : Waiter) (secondsSoFar : option Z) :
  attempt this <= attempt (this' (wait_tick github this secondsSoFar)).
Proof.
  destruct (wait_tick_shape github this secondsSoFar)
    as [[_ ->]|[(_ & _ & ->)|(_ & _ & [(_ & i & _ & _ & ->)|[(_ & _ & ->)|[(_ & ->)|(_ & o & _ & ->)]]])]];
    cbn [this' completed]; try lia.
  destruct (awaitCompletion_observe o this secondsSoFar) as [Hobs _].
  unfold observe in Hobs. injection Hobs as _ _ _ Hat. rewrite Hat.
  destruct (exponentialBackoffRetries (input this)); lia.
Qed.

Lemma wait_attempt_grows (ticks : nat) :
  forall (platform : nat -> Octokit) (n : nat) (this : Waiter) (secondsSoFar : option Z),
    attempt this <= attempt (snd (wait ticks platform n this secondsSoFar)).
Proof.
  induction ticks as [|k IH]; intros platform n this s; cbn [wait];
    pose proof (attempt_grows (platform n) this s) as Hg;
    destruct (completion (wait_tick (platform n) this s)) as [v|e|s'];
    cbn [snd]; try exact Hg.
  specialize (IH platform (S n) (this' (wait_tick (platform n) this s)) (Some s')).
  destruct (wait k platform (S n) _ _) as [[r effs] w]. cbn [snd] in *. lia.
Qed.

(** C1, evaluated on the code: with run 5 concluded successfully and the
    current run 10, [wait()] clears the force-continued output but resolves
    with no value ([undefined]) instead of the elapsed seconds 0; with the
    target job "build" of run 7 completed, or its target step "test"
    completed, and 30 seconds elapsed, it resolves with no value instead of
    30 and sets no output at all. *)
Theorem proceeded_returns_no_value :
  observe (wait_tick run5_succeeded (new_Waiter 1 input0) None)
  = (Proceeded, Return None, [SetOutput "force_continued" ""], 0)
  /\ wait 0 (fun _ => run5_succeeded) 0 (new_Waiter 1 input0) None
     = (Resolved None, [SetOutput "force_continued" ""], new_Waiter 1 input0)
  /\ observe (wait_tick (run7_build "completed" [])
                (new_Waiter 1 (with_targets (Some "build"%string) None input0))
                (Some 30))
     = (Proceeded, Return None, [], 0)
  /\ observe (wait_tick
                (run7_build "in_progress"
                   [{| step_name := "test"; step_status := "completed" |}])
                (new_Waiter 1 (with_targets (Some "build"%string) (Some "test"%string) input0))
                (Some 30))
     = (Proceeded, Return None, [], 0)
  /\ JS.or_undef (Some 30) 0 = 30.
Proof.
  repeat split.
Qed.

(** C3, as the code has it: when the continue-after threshold is set to a
    value other than 0 and the elapsed seconds have reached it, the tick
    sets the force-continued output to '1' and returns the elapsed seconds,
    whatever the abort-after threshold and the runs are; otherwise, when the
    abort-after threshold is set to a value other than 0 and the elapsed
    seconds have reached it, the tick clears the output and throws the error
    carrying the elapsed argument as it was passed: the elapsed seconds
    whenever an argument was passed, which is always so for a positive
    threshold. *)
Theorem escape_hatches (github : Octokit) (this : Waiter) (secondsSoFar : option Z) :
  let E := JS.or_undef secondsSoFar 0 in
  let t := wait_tick github this secondsSoFar in
  (forall C, continueAfterSeconds (input this) = Some C -> C <> 0 -> E >= C ->
     t = {| outcome := Continued;
            completion := Return (Some E);
            effects := [SetOutput "force_continued" "1"];
            this' := this |})
  /\ (forall A,
        (forall C, continueAfterSeconds (input this) = Some C -> C = 0 \/ E < C) ->
        abortAfterSeconds (input this) = Some A -> A <> 0 -> E >= A ->
        t = {| outcome := Aborted;
               completion := Throw secondsSoFar;
               effects := [SetOutput "force_continued" ""];
               this' := this |}
        /\ (secondsSoFar <> None -> secondsSoFar = Some E)
        /\ (0 < A -> secondsSoFar = Some E)).
Proof.
  cbv zeta. split.
  - intros C HC Hnz Hge. unfold wait_tick, continues. rewrite HC. cbn.
    apply Z.eqb_neq in Hnz. rewrite Hnz. cbn.
    assert (Hg : (JS.or_undef secondsSoFar 0 >=? C) = true)
      by (apply Z.geb_le; lia).
    now rewrite Hg.
  - intros A Hcont HA Hnz Hge.
    assert (Hc : continues (input this) secondsSoFar = false).
    { unfold continues.
      destruct (continueAfterSeconds (input this)) as [C|]; [|reflexivity].
      destruct (Hcont C eq_refl) as [-> | Hlt]; [reflexivity|].
      cbn. apply andb_false_intro2. rewrite Z.geb_leb. apply Z.leb_gt. exact Hlt. }
    assert (Ha : aborts (input this) secondsSoFar = true).
    { unfold aborts. rewrite HA. cbn. apply Z.eqb_neq in Hnz. rewrite Hnz. cbn.
      apply Z.geb_le. lia. }
    unfold wait_tick. rewrite Hc, Ha. split; [reflexivity|].
    destruct secondsSoFar as [e|].
    + rewrite (or_undef_elapsed e). split; reflexivity.
    + simpl in Hge. split; [intros H; now elim H | intros; lia].
Qed.

Lemma escape_hatches_witness :
  observe (wait_tick run7_running
             (new_Waiter 1 (with_abortAfterSeconds (Some 10) (with_continueAfterSeconds (Some 30) input0)))
             (Some 35))
  = (Continued, Return (Some 35), [SetOutput "force_continued" "1"], 0)
  /\ observe (wait_tick run7_running
                (new_Waiter 1 (with_abortAfterSeconds (Some 20) input0)) (Some 25))
     = (Aborted, Throw (Some 25), [SetOutput "force_continued" ""], 0).
Proof.
  split.
  - destruct (escape_hatches run7_running
                (new_Waiter 1 (with_abortAfterSeconds (Some 10)
                                 (with_continueAfterSeconds (Some 30) input0)))
                (Some 35)) as [Hc _].
    rewrite (Hc 30).
    + reflexivity.
    + reflexivity.
    + discriminate.
    + vm_compute. discriminate.
  - destruct (escape_hatches run7_running
                (new_Waiter 1 (with_abortAfterSeconds (Some 20) input0)) (Some 25))
      as [_ Ha].
    destruct (Ha 20) as [Ht _].
    + discriminate.
    + reflexivity.
    + discriminate.
    + vm_compute. discriminate.
    + rewrite Ht. reflexivity.
Defined.

(** C3 fails as stated: a continue-after threshold of 0 is configured and
    reached by every elapsed value, yet the tick goes on to wait for run 7;
    and with an abort-after threshold of -1 the first call, entered without
    an elapsed argument, throws an error that carries no elapsed value
    although 0 seconds have elapsed. *)
Lemma zero_threshold_does_not_fire :
  (continueAfterSeconds (with_continueAfterSeconds (Some 0) input0) = Some 0
   /\ JS.or_undef (Some 35) 0 >= 0
   /\ observe (wait_tick run7_running
                 (new_Waiter 1 (with_continueAfterSeconds (Some 0) input0)) (Some 35))
      = (WaitingFullRun, Recurse 50, [Sleep 15000], 0))
  /\ (abortAfterSeconds (with_abortAfterSeconds (Some (-1)) input0) = Some (-1)
      /\ JS.or_undef None 0 >= -1
      /\ completion (wait_tick run7_running
                       (new_Waiter 1 (with_abortAfterSeconds (Some (-1)) input0)) None)
         = Throw None
      /\ Throw None <> Throw (Some (JS.or_undef None 0))).
Proof.
  repeat split; try (vm_compute; discriminate).
Qed.

(** ** Waiting transitions and the backoff *)

Lemma sleeps_app (e1 e2 : list Effect) : sleeps (e1 ++ e2) = sleeps e1 ++ sleeps e2.
Proof.
  unfold sleeps. apply flat_map_app.
Qed.

(** While run 7 stays in progress, the Waiter with backoff sleeps
    [base * (2 * attempt || 1)] seconds at each tick, the attempt counter
    going up by one per tick. *)
Lemma backoff_sleeps (b : Z) (ticks : nat) :
  forall (a : Z) (n : nat) (secondsSoFar : option Z),
    sleeps (snd (fst (wait ticks (fun _ => run7_running) n (backoff_Waiter b a) secondsSoFar)))
    = map (fun j => b * JS.or_num (2 * (a + Z.of_nat j)) 1 * 1000) (seq 0 (S ticks)).
Proof.
  induction ticks as [|k IH]; intros a n s.
  - cbn -[JS.or_undef JS.or_num Z.mul Z.add Z.of_nat].
    rewrite intervalToUse_backoff. now rewrite Z.add_0_r.
  - change (wait (S k) (fun _ => run7_running) n (backoff_Waiter b a) s)
      with (let '(r, effs, w) :=
              wait k (fun _ => run7_running) (S n) (backoff_Waiter b (a + 1))
                (Some (JS.or_undef s 0
                       + JS.or_undef (Some (b * JS.or_num (2 * a) 1)) b)) in
            (r, [Sleep (JS.or_undef (Some (b * JS.or_num (2 * a) 1)) b * 1000)] ++ effs, w)).
    specialize (IH (a + 1) (S n)
                  (Some (JS.or_undef s 0 + JS.or_undef (Some (b * JS.or_num (2 * a) 1)) b))).
    destruct (wait k _ _ _ _) as [[r effs] w]. cbn [fst snd] in *.
    rewrite sleeps_app, IH, intervalToUse_backoff.
    change (seq 0 (S (S k))) with (0%nat :: seq 1 (S k)).
    rewrite <- seq_shift, map_cons, map_map.
    cbn [sleeps flat_map app]. rewrite Z.add_0_r. f_equal.
    apply map_ext. intros j. do 3 f_equal. lia.
Qed.

(** C4 fails as stated: with exponential backoff enabled and a base
    interval of 15 seconds, the first five waiting intervals are 15, 30, 60,
    90 and 120 seconds; the fourth is 90 seconds, six times the base, and
    not the 120 seconds of b * 2^(4-1). *)
Lemma backoff_fourth_interval :
  exponentialBackoffRetries (input (backoff_Waiter 15 0)) = true
  /\ map outcome (ticks_of 4 (fun _ => run7_running) 0 (backoff_Waiter 15 0) None)
     = [WaitingFullRun; WaitingFullRun; WaitingFullRun; WaitingFullRun; WaitingFullRun]
  /\ sleeps (snd (fst (wait 4 (fun _ => run7_running) 0 (backoff_Waiter 15 0) None)))
     = [15000; 30000; 60000; 90000; 120000]
  /\ nth 3 (sleeps (snd (fst (wait 4 (fun _ => run7_running) 0 (backoff_Waiter 15 0) None)))) 0
     <> 15 * 2 ^ (4 - 1) * 1000.
Proof.
  repeat split. vm_compute. discriminate.
Qed.

(** C5, as the code has it: on a WaitingFullRun, WaitingJob or WaitingStep
    transition the interval is the base poll interval when backoff is
    disabled and base * max(1, 2 * attempt) when it is enabled; the attempt
    counter is incremented when backoff is enabled and left as it is when
    backoff is disabled; the Waiter sleeps that interval and calls [wait]
    again with the elapsed seconds increased by exactly that interval. *)
Theorem waiting_transition (github : Octokit) (this : Waiter) (secondsSoFar : option Z) :
  0 <= attempt this ->
  is_waiting (outcome (wait_tick github this secondsSoFar)) = true ->
  let base := pollIntervalSeconds (input this) in
  let backoff := exponentialBackoffRetries (input this) in
  let interval := if backoff then base * Z.max 1 (2 * attempt this) else base in
  let t := wait_tick github this secondsSoFar in
  effects t = [Sleep (interval * 1000)]
  /\ completion t = Recurse (JS.or_undef secondsSoFar 0 + interval)
  /\ attempt (this' t) = (if backoff then attempt this + 1 else attempt this)
  /\ input (this' t) = input this
  /\ forall ticks platform n, platform n = github ->
       wait (S ticks) platform n this secondsSoFar
       = (let '(r, effs, w) :=
            wait ticks platform (S n) (this' t)
              (Some (JS.or_undef secondsSoFar 0 + interval)) in
          (r, Sleep (interval * 1000) :: effs, w)).
Proof.
  intros Ha Hw. cbv zeta.
  assert (Hobs : exists o, wait_tick github this secondsSoFar
                           = awaitCompletion o this secondsSoFar).
  { destruct (wait_tick_shape github this secondsSoFar)
      as [[_ Ht]|[(_ & _ & Ht)|(_ & _ & [(_ & i & _ & _ & Ht)|[(_ & _ & Ht)|[(_ & Ht)|(_ & o & _ & Ht)]]])]];
      try (rewrite Ht in Hw; discriminate).
    exists o. exact Ht. }
  destruct Hobs as [o Ht].
  destruct (awaitCompletion_observe o this secondsSoFar) as (Hobs & Hin & _).
  cbv zeta in Hobs. rewrite or_num_max in Hobs by exact Ha.
  unfold observe in Hobs. injection Hobs as Ho Hc He Hat.
  rewrite <- Ht in Ho, Hc, He, Hat, Hin.
  repeat split; try assumption.
  intros ticks platform n Hp. cbn [wait]. rewrite Hp, Hc.
  destruct (wait ticks platform (S n) _ _) as [[r effs] w].
  rewrite He. reflexivity.
Qed.

Lemma waiting_transition_witness :
  effects (wait_tick run7_running (backoff_Waiter 15 2) (Some 45)) = [Sleep 60000]
  /\ completion (wait_tick run7_running (backoff_Waiter 15 2) (Some 45)) = Recurse 105
  /\ attempt (this' (wait_tick run7_running (backoff_Waiter 15 2) (Some 45))) = 3.
Proof.
  destruct (waiting_transition run7_running (backoff_Waiter 15 2) (Some 45))
    as (He & Hc & Ha & _).
  - vm_compute. discriminate.
  - reflexivity.
  - rewrite He, Hc, Ha. repeat split.
Defined.

(** C5 fails as stated when backoff is disabled: the tick waits for run 7,
    sleeps the base interval, and leaves the attempt counter at 0. *)
Lemma attempt_kept_without_backoff :
  exponentialBackoffRetries input0 = false
  /\ observe (wait_tick run7_running (new_Waiter 1 input0) None)
     = (WaitingFullRun, Recurse 15, [Sleep 15000], 0)
  /\ attempt (this' (wait_tick run7_running (new_Waiter 1 input0) None))
     = attempt (new_Waiter 1 input0).
Proof.
  repeat split.
Qed.

(** C6: a tick that takes the InitialDelay path leaves the attempt counter
    as it was, and a tick that changes the counter is a WaitingFullRun,
    WaitingJob or WaitingStep transition, which adds one to it. *)
Theorem attempt_advances_only_when_waiting
    (github : Octokit) (this : Waiter) (secondsSoFar : option Z) :
  let t := wait_tick github this secondsSoFar in
  (outcome t = InitialDelay -> attempt (this' t) = attempt this)
  /\ (attempt (this' t) <> attempt this ->
      is_waiting (outcome t) = true /\ attempt (this' t) = attempt this + 1).
Proof.
  cbv zeta.
  destruct (wait_tick_shape github this secondsSoFar)
    as [[_ ->]|[(_ & _ & ->)|(_ & _ & [(_ & i & _ & _ & ->)|[(_ & _ & ->)|[(_ & ->)|(_ & o & Ho & ->)]]])]];
    cbn [outcome this' completed]; try (split; [reflexivity | intros H; now elim H]).
  destruct (awaitCompletion_observe o this secondsSoFar) as (Hobs & _).
  unfold observe in Hobs. injection Hobs as Hout _ _ Hat.
  rewrite Hout, Hat. split.
  - intros ->. discriminate.
  - destruct (exponentialBackoffRetries (input this)); [auto | intros H; now elim H].
Qed.

Lemma attempt_advances_only_when_waiting_witness :
  outcome (wait_tick no_runs
             (new_Waiter 1 (with_initialWaitSeconds (Some 10) input0)) None)
  = InitialDelay
  /\ attempt (this' (wait_tick no_runs
                       (new_Waiter 1 (with_initialWaitSeconds (Some 10) input0)) None))
     = 0.
Proof.
  split; [reflexivity|].
  apply (attempt_advances_only_when_waiting no_runs
           (new_Waiter 1 (with_initialWaitSeconds (Some 10) input0)) None).
  reflexivity.
Defined.

(** ** Target lookups and the whole-run wait *)

(** Past the two guards and with a non-empty list, the tick is decided by
    [jobDecision] on the head run. *)
Lemma wait_tick_head (github : Octokit) (this : Waiter) (secondsSoFar : option Z)
    (previousRun : Run) (rest : list Run) :
  continues (input this) secondsSoFar = false ->
  aborts (input this) secondsSoFar = false ->
  previousRuns (input this) (fetchRuns github this) = previousRun :: rest ->
  wait_tick github this secondsSoFar
  = match jobDecision github this secondsSoFar previousRun with
    | Some t => t
    | None => awaitCompletion WaitingFullRun this secondsSoFar
    end.
Proof.
  intros Hc Ha HP. unfold wait_tick. now rewrite Hc, Ha, HP.
Qed.

(** C7: in a tick that gets past the two thresholds with a non-empty
    relevant-previous-run list, a target job name that no job of the head
    run bears makes the tick wait for the whole run, and a target step name
    that no step of the job found bears makes the tick decide on the job:
    wait for it when its status is not "completed", proceed when it is. *)
Theorem target_miss_falls_back (github : Octokit) (this : Waiter)
    (secondsSoFar : option Z) (previousRun : Run) (rest : list Run) :
  continues (input this) secondsSoFar = false ->
  aborts (input this) secondsSoFar = false ->
  previousRuns (input this) (fetchRuns github this) = previousRun :: rest ->
  let jobs := GitHub.jobs github (owner (input this)) (repo (input this))
                (run_id previousRun) in
  let t := wait_tick github this secondsSoFar in
  (forall jobName,
      jobToWaitFor (input this) = Some jobName ->
      JS.find (fun job => String.eqb (job_name job) jobName) jobs = None ->
      t = awaitCompletion WaitingFullRun this secondsSoFar
      /\ outcome t = WaitingFullRun
      /\ exists s, completion t = Recurse s)
  /\ (forall jobName stepName job,
        jobToWaitFor (input this) = Some jobName -> jobName <> EmptyString ->
        JS.find (fun job => String.eqb (job_name job) jobName) jobs = Some job ->
        stepToWaitFor (input this) = Some stepName ->
        JS.find (fun step => String.eqb (step_name step) stepName)
          (GitHub.steps github (owner (input this)) (repo (input this)) (job_id job))
        = None ->
        t = (if negb (String.eqb (job_status job) "completed")
             then awaitCompletion WaitingJob this secondsSoFar
             else completed this)
        /\ outcome t = (if negb (String.eqb (job_status job) "completed")
                        then WaitingJob else Proceeded)).
Proof.
  intros Hc Ha HP. cbv zeta. rewrite (wait_tick_head _ _ _ _ _ Hc Ha HP). split.
  - intros jobName Hj Hfind.
    assert (HJ : jobDecision github this secondsSoFar previousRun = None).
    { unfold jobDecision, stepDecision. rewrite Hj, Hfind.
      destruct (JS.truthy_str (Some jobName)); [|reflexivity].
      now destruct (stepToWaitFor (input this)). }
    rewrite HJ. split; [reflexivity|].
    destruct (awaitCompletion_observe WaitingFullRun this secondsSoFar) as [Hobs _].
    unfold observe in Hobs. injection Hobs as Ho Hcm _ _.
    split; [exact Ho | eexists; exact Hcm].
  - intros jobName stepName job Hj Hne Hfind Hs Hstep.
    assert (Htr : JS.truthy_str (Some jobName) = true).
    { cbn. apply negb_true_iff, String.eqb_neq, Hne. }
    assert (HJ : jobDecision github this secondsSoFar previousRun
                 = Some (if negb (String.eqb (job_status job) "completed")
                         then awaitCompletion WaitingJob this secondsSoFar
                         else completed this)).
    { unfold jobDecision, stepDecision. rewrite Hj, Htr, Hfind, Hs, Hstep.
      destruct (JS.truthy_str (Some stepName));
        now destruct (negb (String.eqb (job_status job) "completed")). }
    rewrite HJ. split; [reflexivity|].
    destruct (negb (String.eqb (job_status job) "completed")); [|reflexivity].
    destruct (awaitCompletion_observe WaitingJob this secondsSoFar) as [Hobs _].
    unfold observe in Hobs. now injection Hobs as Ho _ _ _.
Qed.

Lemma target_miss_falls_back_witness :
  observe (wait_tick (run7_build "in_progress" [])
             (new_Waiter 1 (with_targets (Some "deploy"%string) None input0)) None)
  = (WaitingFullRun, Recurse 15, [Sleep 15000], 0)
  /\ outcome (wait_tick (run7_build "in_progress" [])
                (new_Waiter 1 (with_targets (Some "build"%string) (Some "test"%string) input0))
                None)
     = WaitingJob.
Proof.
  split.
  - destruct (target_miss_falls_back (run7_build "in_progress" [])
                (new_Waiter 1 (with_targets (Some "deploy"%string) None input0)) None
                (mkRun 7 (Some "in_progress"%string) None) [])
      as [Hjob _]; [reflexivity | reflexivity | reflexivity |].
    destruct (Hjob "deploy"%string) as [Ht _]; [reflexivity | reflexivity |].
    rewrite Ht. reflexivity.
  - destruct (target_miss_falls_back (run7_build "in_progress" [])
                (new_Waiter 1 (with_targets (Some "build"%string) (Some "test"%string) input0))
                None (mkRun 7 (Some "in_progress"%string) None) [])
      as [_ Hstep]; [reflexivity | reflexivity | reflexivity |].
    destruct (Hstep "build"%string "test"%string (mkJob 70 "build" "in_progress" []))
      as [_ Ho]; [reflexivity | discriminate | reflexivity | reflexivity | reflexivity |].
    rewrite Ho. reflexivity.
Defined.

(** The pipeline does not look at the status of a run: relisting the runs
    with other statuses relists the relevant previous runs the same way. *)
Lemma filter_with_status (p : Run -> bool) (f : Run -> option string) (l : list Run) :
  (forall r, p (with_status (f r) r) = p r) ->
  filter p (map (fun r => with_status (f r) r) l)
  = map (fun r => with_status (f r) r) (filter p l).
Proof.
  intros Hp. induction l as [|x l IH]; simpl; [reflexivity|].
  rewrite Hp, IH. now destruct (p x).
Qed.

Lemma sort_with_status (f : Run -> option string) (l : list Run) :
  JS.sort by_id_desc (map (fun r => with_status (f r) r) l)
  = map (fun r => with_status (f r) r) (JS.sort by_id_desc l).
Proof.
  induction l as [|x l IH]; simpl; [reflexivity|].
  rewrite IH. generalize (JS.sort by_id_desc l). intros l'.
  induction l' as [|y l' IH']; simpl; [reflexivity|].
  unfold by_id_desc at 1 3. cbn [run_id with_status].
  destruct (run_id y - run_id x <=? 0); simpl; [reflexivity | now rewrite IH'].
Qed.

Lemma previousRuns_with_status (input : Input) (f : Run -> option string) (runs : list Run) :
  previousRuns input (map (fun r => with_status (f r) r) runs)
  = map (fun r => with_status (f r) r) (previousRuns input runs).
Proof.
  unfold previousRuns.
  rewrite <- sort_with_status. f_equal.
  rewrite <- !filter_with_status by reflexivity. f_equal. f_equal.
  destruct (JS.truthy_str (queueName input)); [|reflexivity].
  destruct (queueName input) as [q|]; [|reflexivity].
  now rewrite filter_with_status by reflexivity.
Qed.

(** C8: in a tick that gets past the two thresholds with a non-empty
    relevant-previous-run list, when no target job name is configured or no
    job of the head run bears the configured name, the tick is the
    WaitingFullRun transition, whatever the status of the head run: it
    sleeps the interval of the waiting branch (the poll interval, times
    [2 * attempt || 1] under backoff) and calls [wait] again with that
    interval added to the elapsed seconds; the sleep is a positive time
    whenever the poll interval is. *)
Theorem full_run_wait_ignores_status (github : Octokit) (this : Waiter)
    (secondsSoFar : option Z) (previousRun : Run) (rest : list Run) :
  continues (input this) secondsSoFar = false ->
  aborts (input this) secondsSoFar = false ->
  previousRuns (input this) (fetchRuns github this) = previousRun :: rest ->
  JS.truthy_str (jobToWaitFor (input this)) = false
  \/ (exists jobName,
        jobToWaitFor (input this) = Some jobName
        /\ JS.find (fun job => String.eqb (job_name job) jobName)
             (GitHub.jobs github (owner (input this)) (repo (input this))
                (run_id previousRun))
           = None) ->
  let base := pollIntervalSeconds (input this) in
  let interval :=
    if exponentialBackoffRetries (input this)
    then base * JS.or_num (2 * attempt this) 1 else base in
  let t := wait_tick github this secondsSoFar in
  t = awaitCompletion WaitingFullRun this secondsSoFar
  /\ outcome t = WaitingFullRun
  /\ effects t = [Sleep (interval * 1000)]
  /\ completion t = Recurse (JS.or_undef secondsSoFar 0 + interval)
  /\ (0 < base -> 0 <= attempt this -> 0 < interval).
Proof.
  intros Hc Ha HP Hjob. cbv zeta. rewrite (wait_tick_head _ _ _ _ _ Hc Ha HP).
  assert (HJ : jobDecision github this secondsSoFar previousRun = None).
  { unfold jobDecision, stepDecision. destruct Hjob as [Hfalsy | (jobName & Hj & Hfind)].
    - destruct (jobToWaitFor (input this)) as [j|]; [|reflexivity]. now rewrite Hfalsy.
    - rewrite Hj, Hfind. destruct (JS.truthy_str (Some jobName)); [|reflexivity].
      now destruct (stepToWaitFor (input this)). }
  rewrite HJ. split; [reflexivity|].
  destruct (awaitCompletion_observe WaitingFullRun this secondsSoFar) as [Hobs _].
  unfold observe in Hobs. cbv zeta in Hobs. injection Hobs as Ho Hcm He _.
  split; [exact Ho|]. split; [exact He|]. split; [exact Hcm|].
  intros Hb Hat. rewrite (or_num_max _ Hat).
  destruct (exponentialBackoffRetries (input this)); nia.
Qed.

Lemma full_run_wait_ignores_status_witness :
  run_status (mkRun 7 (Some "completed"%string) (Some "failure"%string))
  = Some "completed"%string
  /\ outcome (wait_tick
                (octokit [mkRun 7 (Some "completed"%string) (Some "failure"%string)] [] [] [])
                (new_Waiter 1 input0) (Some 15))
     = WaitingFullRun
  /\ effects (wait_tick
                (octokit [mkRun 7 (Some "completed"%string) (Some "failure"%string)] [] [] [])
                (new_Waiter 1 input0) (Some 15))
     = [Sleep 15000]
  /\ completion (wait_tick
                   (octokit [mkRun 7 (Some "completed"%string) (Some "failure"%string)] [] [] [])
                   (new_Waiter 1 input0) (Some 15))
     = Recurse 30.
Proof.
  split; [reflexivity|].
  destruct (full_run_wait_ignores_status
              (octokit [mkRun 7 (Some "completed"%string) (Some "failure"%string)] [] [] [])
              (new_Waiter 1 input0) (Some 15)
              (mkRun 7 (Some "completed"%string) (Some "failure"%string)) [])
    as (_ & Ho & He & Hc & _).
  - reflexivity.
  - reflexivity.
  - reflexivity.
  - left. reflexivity.
  - rewrite Ho, He, Hc. repeat split.
Defined.

(** ** Thresholds of zero and the force-continued output *)

(** C9: a continue-after threshold of 0 never takes the Continued branch and
    an abort-after threshold of 0 never takes the Aborted branch, and with
    either the tick does what it does with that threshold absent: the same
    branch, the same completion, the same effects and the same attempt
    counter, for every elapsed value. *)
Theorem zero_threshold_is_no_threshold
    (github : Octokit) (this : Waiter) (secondsSoFar : option Z) :
  (observe (wait_tick github
              (with_input (with_continueAfterSeconds (Some 0) (input this)) this)
              secondsSoFar)
   = observe (wait_tick github
                (with_input (with_continueAfterSeconds None (input this)) this)
                secondsSoFar)
   /\ outcome (wait_tick github
                 (with_input (with_continueAfterSeconds (Some 0) (input this)) this)
                 secondsSoFar)
      <> Continued)
  /\ (observe (wait_tick github
                 (with_input (with_abortAfterSeconds (Some 0) (input this)) this)
                 secondsSoFar)
      = observe (wait_tick github
                   (with_input (with_abortAfterSeconds None (input this)) this)
                   secondsSoFar)
      /\ outcome (wait_tick github
                    (with_input (with_abortAfterSeconds (Some 0) (input this)) this)
                    secondsSoFar)
         <> Aborted).
Proof.
  split; split.
  - unfold observe, wait_tick, continues, aborts, retriesInitially, fetchRuns,
      previousRuns, jobDecision, stepDecision, awaitCompletion, pollAndWait,
      completed.
    tick_cases; reflexivity.
  - intros H.
    destruct (wait_tick_shape github
                (with_input (with_continueAfterSeconds (Some 0) (input this)) this)
                secondsSoFar)
      as [[Hc _]|[(_ & _ & Ht)|(_ & _ & [(_ & i & _ & _ & Ht)|[(_ & _ & Ht)|[(_ & Ht)|(_ & o & Ho & Ht)]]])]];
      try (rewrite Ht in H; discriminate).
    + discriminate Hc.
    + rewrite Ht in H.
      destruct (awaitCompletion_observe o
                  (with_input (with_continueAfterSeconds (Some 0) (input this)) this)
                  secondsSoFar) as [Hobs _].
      unfold observe in Hobs. injection Hobs as Hout _ _ _.
      rewrite Hout in H. subst o. discriminate Ho.
  - unfold observe, wait_tick, continues, aborts, retriesInitially, fetchRuns,
      previousRuns, jobDecision, stepDecision, awaitCompletion, pollAndWait,
      completed.
    tick_cases; reflexivity.
  - intros H.
    destruct (wait_tick_shape github
                (with_input (with_abortAfterSeconds (Some 0) (input this)) this)
                secondsSoFar)
      as [[_ Ht]|[(_ & Ha & _)|(_ & _ & [(_ & i & _ & _ & Ht)|[(_ & _ & Ht)|[(_ & Ht)|(_ & o & Ho & Ht)]]])]];
      try (rewrite Ht in H; discriminate).
    + discriminate Ha.
    + rewrite Ht in H.
      destruct (awaitCompletion_observe o
                  (with_input (with_abortAfterSeconds (Some 0) (input this)) this)
                  secondsSoFar) as [Hobs _].
      unfold observe in Hobs. injection Hobs as Hout _ _ _.
      rewrite Hout in H. subst o. discriminate Ho.
Qed.



(** * Further properties of the pipeline *)

Lemma insert_head_sorted (x : Run) (l : list Run) :
  StronglySorted id_ge (x :: l) -> JS.insert by_id_desc x l = x :: l.
Proof.
  intros Hs. destruct l as [|y l]; [reflexivity|]. simpl.
  inversion Hs as [|? ? _ Hall]; subst. inversion Hall as [|? ? Hxy _]; subst.
  unfold id_ge in Hxy. unfold by_id_desc.
  destruct (run_id y - run_id x <=? 0) eqn:E; [reflexivity|].
  apply Z.leb_gt in E. lia.
Qed.

Lemma sort_of_sorted (l : list Run) :
  StronglySorted id_ge l -> JS.sort by_id_desc l = l.
Proof.
  induction l as [|x l IH]; intros Hs; [reflexivity|]. simpl.
  inversion Hs as [|? ? Hl _]; subst.
  rewrite (IH Hl). apply insert_head_sorted, Hs.
Qed.

Lemma filter_keeps_all {A : Type} (p : A -> bool) (l : list A) :
  (forall x, In x l -> p x = true) -> filter p l = l.
Proof.
  induction l as [|x l IH]; intros Hp; simpl; [reflexivity|].
  rewrite (Hp x (or_introl eq_refl)). f_equal. apply IH.
  intros y Hy. apply Hp. now right.
Qed.

Lemma insert_keeps_listing_order (k : Z) (x : Run) (l : list Run) :
  filter (has_id k) (JS.insert by_id_desc x l) = filter (has_id k) (x :: l).
Proof.
  induction l as [|y l IH]; [reflexivity|].
  cbn [JS.insert]. unfold by_id_desc at 1.
  destruct (run_id y - run_id x <=? 0) eqn:E; [reflexivity|].
  apply Z.leb_gt in E.
  cbn [filter] in *. rewrite IH. unfold has_id.
  destruct (run_id x =? k) eqn:Ex; [|reflexivity].
  apply Z.eqb_eq in Ex.
  assert (Ey : (run_id y =? k) = false) by (apply Z.eqb_neq; lia).
  now rewrite Ey.
Qed.

(** X1: the run the Waiter looks at, the head of the relevant-previous-run
    list, is one of the fetched runs, is kept by the filters, and has the
    greatest id of all the fetched runs the filters keep. *)
Theorem previousRuns_head_latest (input : Input) (runs : list Run)
    (previousRun : Run) (rest : list Run) :
  previousRuns input runs = previousRun :: rest ->
  In previousRun runs
  /\ spec_relevant input previousRun = true
  /\ forall r, In r runs -> spec_relevant input r = true ->
       run_id r <= run_id previousRun.
Proof.
  intros HP. rewrite previousRuns_filter in HP.
  assert (Hhead : In previousRun (filter (spec_relevant input) runs)).
  { apply (sort_In by_id_desc). rewrite HP. now left. }
  apply filter_In in Hhead. destruct Hhead as [Hin Hrel].
  repeat split; [exact Hin | exact Hrel|].
  intros r Hr Hrelr.
  assert (Hr' : In r (previousRun :: rest)).
  { rewrite <- HP. apply sort_In, filter_In. auto. }
  pose proof (sort_sorted (filter (spec_relevant input) runs)) as Hs.
  rewrite HP in Hs. inversion Hs as [|? ? _ Hall]; subst.
  destruct Hr' as [<-|Hr']; [lia|].
  rewrite Forall_forall in Hall. specialize (Hall r Hr').
  unfold id_ge in Hall. lia.
Qed.

Lemma previousRuns_head_latest_witness :
  previousRuns input0
    [mkRun 5 (Some "queued"%string) None; mkRun 7 (Some "queued"%string) None;
     mkRun 12 (Some "queued"%string) None]
  = [mkRun 7 (Some "queued"%string) None; mkRun 5 (Some "queued"%string) None]
  /\ 5 <= run_id (mkRun 7 (Some "queued"%string) None).
Proof.
  split; [reflexivity|].
  destruct (previousRuns_head_latest input0
              [mkRun 5 (Some "queued"%string) None; mkRun 7 (Some "queued"%string) None;
               mkRun 12 (Some "queued"%string) None]
              (mkRun 7 (Some "queued"%string) None)
              [mkRun 5 (Some "queued"%string) None] eq_refl) as (_ & _ & Hmax).
  apply (Hmax (mkRun 5 (Some "queued"%string) None)).
  - left. reflexivity.
  - reflexivity.
Defined.

(** X2: the pipeline is idempotent: run on its own output, it keeps every run
    in place. *)
Theorem previousRuns_idempotent (input : Input) (runs : list Run) :
  previousRuns input (previousRuns input runs) = previousRuns input runs.
Proof.
  rewrite (previousRuns_filter input (previousRuns input runs)).
  rewrite filter_keeps_all.
  - apply sort_of_sorted. rewrite previousRuns_filter. apply sort_sorted.
  - intros r Hr. rewrite previousRuns_filter in Hr.
    apply sort_In, filter_In in Hr. tauto.
Qed.

(** X3: the ordering is stable: for every id, the kept runs bearing that id
    stand in the relevant-previous-run list in the order in which they were
    fetched. *)
Theorem previousRuns_stable (input : Input) (runs : list Run) (k : Z) :
  filter (has_id k) (previousRuns input runs)
  = filter (has_id k) (filter (spec_relevant input) runs).
Proof.
  rewrite previousRuns_filter.
  induction (filter (spec_relevant input) runs) as [|x l IH]; [reflexivity|].
  cbn [JS.sort]. rewrite insert_keeps_listing_order.
  cbn [filter]. now rewrite IH.
Qed.

(** X4: a run passes the queue-name filter exactly when the queue name
    occurs, as it is spelled, somewhere in its display title or in its name;
    a run that has neither never passes. *)
Theorem matchesQueue_occurs (q : string) (run : Run) :
  matchesQueue q run = true
  <-> occurs_in q (run_display_title run) \/ occurs_in q (run_name run).
Proof.
  assert (H : forall t, JS.opt_includes t q = true <-> occurs_in q t).
  { intros [u|]; unfold occurs_in; simpl.
    - rewrite includes_occurs. split.
      + intros (pre & post & Hu). exists u, pre, post. auto.
      + intros (u' & pre & post & [= <-] & Hu). exists pre, post. exact Hu.
    - split; [discriminate | intros (u & _ & _ & Hu & _); discriminate]. }
  unfold matchesQueue. rewrite orb_true_iff, !H. reflexivity.
Qed.

(** * Further properties of a tick *)





(** X8: a tick reads the jobs of the head run only: two platforms that list
    the same runs, answer the same jobs for the head of the
    relevant-previous-run list and the same job details give the same tick,
    whatever jobs they answer for the other runs. *)
Theorem wait_tick_reads_head_only (gh1 gh2 : Octokit) (this : Waiter)
    (secondsSoFar : option Z) :
  (forall o r b w s, listWorkflowRuns gh1 o r b w s = listWorkflowRuns gh2 o r b w s) ->
  (forall previousRun rest,
      previousRuns (input this) (fetchRuns gh1 this) = previousRun :: rest ->
      listJobsForWorkflowRun gh1 (owner (input this)) (repo (input this)) (run_id previousRun)
      = listJobsForWorkflowRun gh2 (owner (input this)) (repo (input this)) (run_id previousRun)) ->
  (forall o r id, getJobForWorkflowRun gh1 o r id = getJobForWorkflowRun gh2 o r id) ->
  wait_tick gh1 this secondsSoFar = wait_tick gh2 this secondsSoFar.
Proof.
  intros Hruns Hjobs Hjob.
  assert (Hf : fetchRuns gh1 this = fetchRuns gh2 this).
  { unfold fetchRuns, GitHub.runs. now rewrite !Hruns. }
  unfold wait_tick. rewrite <- Hf.
  destruct (continues (input this) secondsSoFar); [reflexivity|].
  destruct (aborts (input this) secondsSoFar); [reflexivity|].
  destruct (previousRuns (input this) (fetchRuns gh1 this)) as [|r rest] eqn:HP;
    [reflexivity|].
  assert (HJ : jobDecision gh1 this secondsSoFar r = jobDecision gh2 this secondsSoFar r).
  { unfold jobDecision, stepDecision, GitHub.jobs, GitHub.steps.
    rewrite (Hjobs r rest eq_refl).
    destruct (jobToWaitFor (input this)) as [j|]; [|reflexivity].
    destruct (JS.truthy_str (Some j)); [|reflexivity].
    destruct (JS.find _ _) as [jb|]; [|now destruct (stepToWaitFor (input this))].
    now rewrite Hjob. }
  now rewrite HJ.
Qed.

Lemma wait_tick_reads_head_only_witness :
  wait_tick (run7_build "completed" [])
    (new_Waiter 1 (with_targets (Some "build"%string) None input0)) None
  = wait_tick
      {| listWorkflowRuns := listWorkflowRuns (run7_build "completed" []);
         listJobsForWorkflowRun := fun o r id =>
           if id =? 7 then listJobsForWorkflowRun (run7_build "completed" []) o r id
           else [];
         getJobForWorkflowRun := getJobForWorkflowRun (run7_build "completed" []) |}
      (new_Waiter 1 (with_targets (Some "build"%string) None input0)) None.
Proof.
  apply wait_tick_reads_head_only.
  - reflexivity.
  - intros previousRun rest HP. injection HP as <- _. reflexivity.
  - reflexivity.
Defined.

Lemma initial_delay_inv (github : Octokit) (this : Waiter) (secondsSoFar : option Z) :
  outcome (wait_tick github this secondsSoFar) = InitialDelay ->
  exists i, initialWaitSeconds (input this) = Some i
            /\ retriesInitially (input this) secondsSoFar = true
            /\ this' (wait_tick github this secondsSoFar) = this
            /\ completion (wait_tick github this secondsSoFar)
               = Recurse (JS.or_undef secondsSoFar 0 + i).
Proof.
  destruct (wait_tick_shape github this secondsSoFar)
    as [[_ ->]|[(_ & _ & ->)|(_ & _ & [(_ & i & Hi & Hr & ->)|[(_ & _ & ->)|[(_ & ->)|(_ & o & Ho & ->)]]])]];
    cbn [outcome completion this' completed]; try discriminate.
  - intros _. exists i. auto.
  - destruct (awaitCompletion_observe o this secondsSoFar) as [Hobs _].
    unfold observe in Hobs. injection Hobs as Hout _ _ _.
    rewrite Hout. intros ->. discriminate.
Qed.

(** X9: the initial wait is not repeated: when a tick entered with a
    non-negative elapsed value takes the InitialDelay branch, the tick that
    follows it does not, whatever the platform answers then. *)
Theorem initial_delay_not_repeated (github github' : Octokit) (this : Waiter)
    (secondsSoFar : option Z) (s' : Z) :
  0 <= JS.or_undef secondsSoFar 0 ->
  outcome (wait_tick github this secondsSoFar) = InitialDelay ->
  completion (wait_tick github this secondsSoFar) = Recurse s' ->
  outcome (wait_tick github' (this' (wait_tick github this secondsSoFar)) (Some s'))
  <> InitialDelay.
Proof.
  intros HE Hout Hc.
  destruct (initial_delay_inv _ _ _ Hout) as (i & Hi & Hr & Ht & Hc').
  rewrite Hc' in Hc. injection Hc as <-. rewrite Ht.
  intros Hout'.
  destruct (initial_delay_inv _ _ _ Hout') as (i' & Hi' & Hr' & _).
  unfold retriesInitially in Hr, Hr'. rewrite Hi in Hr, Hr'.
  rewrite or_undef_elapsed in Hr'.
  apply andb_prop in Hr'. destruct Hr' as [_ Hlt]. apply Z.ltb_lt in Hlt. lia.
Qed.

Lemma initial_delay_not_repeated_witness :
  outcome (wait_tick no_runs
             (new_Waiter 1 (with_initialWaitSeconds (Some 10) input0)) None)
  = InitialDelay
  /\ outcome (wait_tick no_runs
                (this' (wait_tick no_runs
                          (new_Waiter 1 (with_initialWaitSeconds (Some 10) input0)) None))
                (Some 10))
     <> InitialDelay.
Proof.
  split; [reflexivity|].
  apply (initial_delay_not_repeated no_runs no_runs
           (new_Waiter 1 (with_initialWaitSeconds (Some 10) input0)) None 10).
  - vm_compute. discriminate.
  - reflexivity.
  - reflexivity.
Defined.

(** * Properties of a whole call of [wait] *)

Lemma tick_keeps_config (github : Octokit) (this : Waiter) (secondsSoFar : option Z) :
  input (this' (wait_tick github this secondsSoFar)) = input this
  /\ workflowId (this' (wait_tick github this secondsSoFar)) = workflowId this.
Proof.
  destruct (wait_tick_shape github this secondsSoFar)
    as [[_ ->]|[(_ & _ & ->)|(_ & _ & [(_ & i & _ & _ & ->)|[(_ & _ & ->)|[(_ & ->)|(_ & o & _ & ->)]]])]];
    cbn [this' completed]; auto.
  destruct (awaitCompletion_observe o this secondsSoFar) as (_ & Hi & Hw). auto.
Qed.

Lemma slept_app (e1 e2 : list Effect) : slept (e1 ++ e2) = slept e1 + slept e2.
Proof.
  unfold slept. rewrite sleeps_app.
  induction (sleeps e1) as [|x l IH]; simpl; [reflexivity | rewrite IH; lia].
Qed.

(** What a tick adds to the elapsed seconds is what it sleeps. *)
Lemma tick_slept (github : Octokit) (this : Waiter) (secondsSoFar : option Z) :
  match completion (wait_tick github this secondsSoFar) with
  | Recurse s' =>
      s' * 1000 = JS.or_undef secondsSoFar 0 * 1000
                  + slept (effects (wait_tick github this secondsSoFar))
  | Return (Some e) =>
      e = JS.or_undef secondsSoFar 0
      /\ slept (effects (wait_tick github this secondsSoFar)) = 0
  | Return None => slept (effects (wait_tick github this secondsSoFar)) = 0
  | Throw p =>
      p = secondsSoFar /\ slept (effects (wait_tick github this secondsSoFar)) = 0
  end.
Proof.
  destruct (wait_tick_shape github this secondsSoFar)
    as [[_ ->]|[(_ & _ & ->)|(_ & _ & [(_ & i & _ & _ & ->)|[(_ & _ & ->)|[(_ & ->)|(_ & o & _ & ->)]]])]];
    cbn [completion effects completed]; auto.
  - unfold slept. cbn [sleeps flat_map app fold_right]. lia.
  - destruct (awaitCompletion_observe o this secondsSoFar) as (Hobs & _).
    unfold observe in Hobs. injection Hobs as _ Hc He _. rewrite Hc, He.
    unfold slept. cbn [sleeps flat_map app fold_right]. lia.
Qed.

(** X10: the elapsed seconds a call of [wait] ends with are the seconds it
    was entered with plus the time it slept: this holds of the value it
    returns when it force-continues, of the value its abort error carries,
    and of the value it would pass on when it is still polling. *)
Theorem elapsed_is_time_slept (ticks : nat) :
  forall (platform : nat -> Octokit) (n : nat) (this : Waiter) (secondsSoFar : option Z),
    let r := fst (fst (wait ticks platform n this secondsSoFar)) in
    let effs := snd (fst (wait ticks platform n this secondsSoFar)) in
    let ended :=
      match r with
      | Resolved (Some e) => Some e
      | Resolved None => None
      | Rejected p => Some (JS.or_undef p 0)
      | Polling s => Some s
      end in
    forall e, ended = Some e ->
      e * 1000 = JS.or_undef secondsSoFar 0 * 1000 + slept effs.
Proof.
  assert (Hend : forall (platform : nat -> Octokit) (n : nat) this s,
             match completion (wait_tick (platform n) this s) with
             | Return (Some e) | Recurse e =>
                 e * 1000 = JS.or_undef s 0 * 1000
                            + slept (effects (wait_tick (platform n) this s))
             | Return None => True
             | Throw p =>
                 JS.or_undef p 0 * 1000
                 = JS.or_undef s 0 * 1000
                   + slept (effects (wait_tick (platform n) this s))
             end).
  { intros platform n this s. pose proof (tick_slept (platform n) this s) as Ht.
    destruct (completion (wait_tick (platform n) this s)) as [[v|]|p|s'].
    - destruct Ht as [Hv Hs]. rewrite Hv, Hs. lia.
    - exact I.
    - destruct Ht as [Hp Hs]. rewrite Hp, Hs. lia.
    - exact Ht. }
  induction ticks as [|k IH]; intros platform n this s; cbv zeta; cbn [wait];
    specialize (Hend platform n this s);
    destruct (completion (wait_tick (platform n) this s)) as [[v|]|p|s'];
    cbn [fst snd]; intros e He; try discriminate;
    try (injection He as <-; exact Hend).
  specialize (IH platform (S n) (this' (wait_tick (platform n) this s)) (Some s')).
  cbv zeta in IH.
  destruct (wait k platform (S n) _ _) as [[r effs] w]. cbn [fst snd] in *.
  specialize (IH e He). rewrite or_undef_elapsed in IH.
  rewrite slept_app. lia.
Qed.

Lemma elapsed_is_time_slept_witness :
  fst (fst (wait 4 (fun _ => run7_running) 0 (backoff_Waiter 15 0) None)) = Polling 315
  /\ 315 * 1000
     = JS.or_undef None 0 * 1000
       + slept (snd (fst (wait 4 (fun _ => run7_running) 0 (backoff_Waiter 15 0) None))).
Proof.
  split; [reflexivity|].
  apply (elapsed_is_time_slept 4 (fun _ => run7_running) 0 (backoff_Waiter 15 0) None).
  reflexivity.
Defined.

Section LastTick.
Variable I : Waiter -> option Z -> Prop.
Hypothesis I_step :
  forall github this s s',
    I this s -> completion (wait_tick github this s) = Recurse s' ->
    I (this' (wait_tick github this s)) (Some s').

(** A call ends with the completion of its last tick, which an invariant of
    the tail calls holds for. *)
Lemma wait_last_tick (ticks : nat) :
  forall (platform : nat -> Octokit) (n : nat) (this : Waiter) (s : option Z),
    I this s ->
    exists m this_f s_f pre,
      I this_f s_f
      /\ wait ticks platform n this s
         = (result_of (completion (wait_tick (platform m) this_f s_f)),
            pre ++ effects (wait_tick (platform m) this_f s_f),
            this' (wait_tick (platform m) this_f s_f)).
Proof.
  induction ticks as [|k IH]; intros platform n this s HI; cbn [wait].
  - exists n, this, s, []. split; [exact HI|].
    now destruct (completion (wait_tick (platform n) this s)).
  - destruct (completion (wait_tick (platform n) this s)) as [v|p|s'] eqn:Hc.
    + exists n, this, s, []. rewrite Hc. auto.
    + exists n, this, s, []. rewrite Hc. auto.
    + destruct (IH platform (S n) _ _ (I_step _ _ _ _ HI Hc))
        as (m & this_f & s_f & pre & HIf & Hw).
      exists m, this_f, s_f, (effects (wait_tick (platform n) this s) ++ pre).
      split; [exact HIf|]. rewrite Hw. now rewrite app_assoc.
Qed.
End LastTick.

Lemma tick_throw_inv (github : Octokit) (this : Waiter) (s p : option Z) :
  completion (wait_tick github this s) = Throw p ->
  p = s /\ continues (input this) s = false /\ aborts (input this) s = true
  /\ effects (wait_tick github this s) = [SetOutput "force_continued" ""].
Proof.
  destruct (wait_tick_shape github this s)
    as [[_ ->]|[(Hc & Ha & ->)|(_ & _ & [(_ & i & _ & _ & ->)|[(_ & _ & ->)|[(_ & ->)|(_ & o & _ & ->)]]])]];
    cbn [completion effects completed]; try discriminate.
  - intros [= <-]. auto.
  - destruct (awaitCompletion_observe o this s) as (Hobs & _).
    unfold observe in Hobs. injection Hobs as _ Hcm _ _. rewrite Hcm. discriminate.
Qed.

Lemma tick_return_inv (github : Octokit) (this : Waiter) (s : option Z) (e : Z) :
  completion (wait_tick github this s) = Return (Some e) ->
  e = JS.or_undef s 0 /\ continues (input this) s = true
  /\ effects (wait_tick github this s) = [SetOutput "force_continued" "1"].
Proof.
  destruct (wait_tick_shape github this s)
    as [[Hc ->]|[(_ & _ & ->)|(_ & _ & [(_ & i & _ & _ & ->)|[(_ & _ & ->)|[(_ & ->)|(_ & o & _ & ->)]]])]];
    cbn [completion effects completed]; try discriminate.
  - intros [= <-]. auto.
  - destruct (awaitCompletion_observe o this s) as (Hobs & _).
    unfold observe in Hobs. injection Hobs as _ Hcm _ _. rewrite Hcm. discriminate.
Qed.

Lemma continues_inv (input : Input) (s : option Z) :
  continues input s = true ->
  exists C, continueAfterSeconds input = Some C /\ C <> 0 /\ C <= JS.or_undef s 0.
Proof.
  unfold continues. destruct (continueAfterSeconds input) as [C|]; [|discriminate].
  cbn. intros H. apply andb_prop in H. destruct H as [Hnz Hge].
  apply negb_true_iff, Z.eqb_neq in Hnz. apply Z.geb_le in Hge.
  exists C. auto.
Qed.

Lemma continues_false_inv (input : Input) (s : option Z) (C : Z) :
  continues input s = false -> continueAfterSeconds input = Some C ->
  C = 0 \/ JS.or_undef s 0 < C.
Proof.
  unfold continues. intros H HC. rewrite HC in H. cbn in H.
  apply andb_false_iff in H. destruct H as [H|H].
  - left. apply negb_false_iff, Z.eqb_eq in H. exact H.
  - right. rewrite Z.geb_leb in H. apply Z.leb_gt in H. exact H.
Qed.

Lemma aborts_inv (input : Input) (s : option Z) :
  aborts input s = true ->
  exists A, abortAfterSeconds input = Some A /\ A <> 0 /\ A <= JS.or_undef s 0.
Proof.
  unfold aborts. destruct (abortAfterSeconds input) as [A|]; [|discriminate].
  cbn. intros H. apply andb_prop in H. destruct H as [Hnz Hge].
  apply negb_true_iff, Z.eqb_neq in Hnz. apply Z.geb_le in Hge.
  exists A. auto.
Qed.

Lemma same_input_step (inp : Input) :
  forall github this (s : option Z) (s' : Z),
    input this = inp -> completion (wait_tick github this s) = Recurse s' ->
    input (this' (wait_tick github this s)) = inp.
Proof.
  intros github this s s' Hi _.
  destruct (tick_keeps_config github this s) as [-> _]. exact Hi.
Qed.

(** On a platform that answers, a call ends with the abort error only with
    an abort-after threshold other than 0 that the elapsed seconds carried
    by the error have reached, and with no continue-after threshold other
    than 0 reached by them; clearing the force-continued output is then the
    last thing it does. *)
Lemma wait_aborted_inv (ticks : nat) (platform : nat -> Octokit) (n : nat)
    (this : Waiter) (secondsSoFar p : option Z) :
  fst (fst (wait ticks platform n this secondsSoFar)) = Rejected p ->
  (exists A, abortAfterSeconds (input this) = Some A /\ A <> 0
             /\ A <= JS.or_undef p 0)
  /\ (forall C, continueAfterSeconds (input this) = Some C ->
        C = 0 \/ JS.or_undef p 0 < C)
  /\ exists pre, snd (fst (wait ticks platform n this secondsSoFar))
                 = pre ++ [SetOutput "force_continued" ""].
Proof.
  intros Hr.
  destruct (wait_last_tick (fun w _ => input w = input this)
              (same_input_step (input this)) ticks platform n this secondsSoFar eq_refl)
    as (m & this_f & s_f & pre & Hin & Hw).
  rewrite Hw in Hr |- *. cbn [fst snd] in *.
  destruct (completion (wait_tick (platform m) this_f s_f)) as [v|q|s'] eqn:Hc;
    try discriminate.
  injection Hr as ->.
  destruct (tick_throw_inv _ _ _ _ Hc) as (-> & Hcont & Hab & He).
  rewrite Hin in Hcont, Hab. repeat split.
  - apply aborts_inv, Hab.
  - intros C HC. eapply continues_false_inv; eassumption.
  - exists pre. now rewrite He.
Qed.

(** On a platform that answers, a call does not end with the abort error
    when no abort-after threshold other than 0 is set, nor when a
    continue-after threshold other than 0 is set that is not above the
    abort-after threshold. *)
Lemma wait_not_aborted (ticks : nat) (platform : nat -> Octokit) (n : nat)
    (this : Waiter) (secondsSoFar p : option Z) :
  JS.truthy_num (abortAfterSeconds (input this)) = false
  \/ (exists C A, continueAfterSeconds (input this) = Some C /\ C <> 0
                  /\ abortAfterSeconds (input this) = Some A /\ C <= A) ->
  fst (fst (wait ticks platform n this secondsSoFar)) <> Rejected p.
Proof.
  intros Hcfg Hr.
  destruct (wait_last_tick (fun w _ => input w = input this)
              (same_input_step (input this)) ticks platform n this secondsSoFar eq_refl)
    as (m & this_f & s_f & pre & Hin & Hw).
  rewrite Hw in Hr. cbn [fst] in Hr.
  destruct (completion (wait_tick (platform m) this_f s_f)) as [v|q|s'] eqn:Hc;
    try discriminate.
  destruct (tick_throw_inv _ _ _ _ Hc) as (_ & Hcont & Hab & _).
  rewrite Hin in Hcont, Hab.
  destruct (aborts_inv _ _ Hab) as (A & HA & HAnz & HAle).
  destruct Hcfg as [Hfalsy | (C & A' & HC & HCnz & HA' & Hle)].
  - rewrite HA in Hfalsy. cbn in Hfalsy.
    apply negb_false_iff, Z.eqb_eq in Hfalsy. contradiction.
  - rewrite HA in HA'. injection HA' as <-.
    destruct (continues_false_inv _ _ _ Hcont HC); [contradiction | lia].
Qed.

(** X13: a call of [wait] returns a number exactly when it has set the
    force-continued output to '1'; the number is then at or above a
    continue-after threshold other than 0, and setting the output is the
    last thing the call does. *)
Theorem resolves_with_value_iff_continued (ticks : nat) (platform : nat -> Octokit)
    (n : nat) (this : Waiter) (secondsSoFar : option Z) :
  let r := fst (fst (wait ticks platform n this secondsSoFar)) in
  let effs := snd (fst (wait ticks platform n this secondsSoFar)) in
  ((exists e, r = Resolved (Some e)) <-> In (SetOutput "force_continued" "1") effs)
  /\ forall e, r = Resolved (Some e) ->
       (exists C, continueAfterSeconds (input this) = Some C /\ C <> 0 /\ C <= e)
       /\ exists pre, effs = pre ++ [SetOutput "force_continued" "1"].
Proof.
  cbv zeta.
  assert (Hval : forall e,
             fst (fst (wait ticks platform n this secondsSoFar)) = Resolved (Some e) ->
             (exists C, continueAfterSeconds (input this) = Some C /\ C <> 0 /\ C <= e)
             /\ exists pre, snd (fst (wait ticks platform n this secondsSoFar))
                            = pre ++ [SetOutput "force_continued" "1"]).
  { intros e Hr.
    destruct (wait_last_tick (fun w _ => input w = input this)
                (same_input_step (input this)) ticks platform n this secondsSoFar eq_refl)
      as (m & this_f & s_f & pre & Hin & Hw).
    rewrite Hw in Hr |- *. cbn [fst snd] in *.
    destruct (completion (wait_tick (platform m) this_f s_f)) as [v|q|s'] eqn:Hc;
      try discriminate.
    injection Hr as ->.
    destruct (tick_return_inv _ _ _ _ Hc) as (-> & Hcont & He).
    rewrite Hin in Hcont. split.
    - apply continues_inv, Hcont.
    - exists pre. now rewrite He. }
  split; [split|exact Hval].
  - intros [e Hr]. destruct (Hval e Hr) as [_ [pre ->]].
    apply in_or_app. right. now left.
  - apply wait_set_one_resolves.
Qed.

Lemma resolves_with_value_iff_continued_witness :
  fst (fst (wait 4 (fun _ => run7_running) 0
              (new_Waiter 1 (with_continueAfterSeconds (Some 30) input0)) None))
  = Resolved (Some 30)
  /\ exists C, continueAfterSeconds (with_continueAfterSeconds (Some 30) input0) = Some C
               /\ C <> 0 /\ C <= 30.
Proof.
  split; [reflexivity|].
  apply (resolves_with_value_iff_continued 4 (fun _ => run7_running) 0
           (new_Waiter 1 (with_continueAfterSeconds (Some 30) input0)) None).
  reflexivity.
Defined.

(** With a positive poll interval, every tail call adds at least a second. *)
Lemma tick_recurse_progress (github : Octokit) (this : Waiter) (s : option Z) (s' : Z) :
  0 < pollIntervalSeconds (input this) -> 0 <= attempt this ->
  completion (wait_tick github this s) = Recurse s' ->
  JS.or_undef s 0 + 1 <= s'.
Proof.
  intros Hb Ha.
  destruct (wait_tick_shape github this s)
    as [[_ ->]|[(_ & _ & ->)|(_ & _ & [(_ & i & Hi & Hr & ->)|[(_ & _ & ->)|[(_ & ->)|(_ & o & _ & ->)]]])]];
    cbn [completion completed]; try discriminate.
  - intros [= <-]. unfold retriesInitially in Hr. rewrite Hi in Hr.
    apply andb_prop in Hr. destruct Hr as [Hpos _].
    rewrite Z.gtb_ltb in Hpos. apply Z.ltb_lt in Hpos. lia.
  - destruct (awaitCompletion_observe o this s) as (Hobs & _).
    unfold observe in Hobs. cbv zeta in Hobs.
    rewrite (or_num_max _ Ha) in Hobs. injection Hobs as _ Hcm _ _.
    rewrite Hcm. intros [= <-].
    destruct (exponentialBackoffRetries (input this)); nia.
Qed.

(** A threshold other than 0 that the elapsed seconds have reached ends the
    call at this tick. *)
Lemma tick_threshold_stops (github : Octokit) (this : Waiter) (s : option Z) (L s' : Z) :
  continueAfterSeconds (input this) = Some L \/ abortAfterSeconds (input this) = Some L ->
  L <> 0 -> L <= JS.or_undef s 0 ->
  completion (wait_tick github this s) <> Recurse s'.
Proof.
  intros HL Hnz Hle. apply Z.eqb_neq in Hnz. apply Z.geb_le in Hle.
  unfold wait_tick.
  destruct (continues (input this) s) eqn:Hc; [discriminate|].
  destruct (aborts (input this) s) eqn:Ha; [discriminate|].
  exfalso. destruct HL as [HL|HL].
  - unfold continues in Hc. rewrite HL in Hc. cbn in Hc.
    rewrite Hnz, Hle in Hc. discriminate.
  - unfold aborts in Ha. rewrite HL in Ha. cbn in Ha.
    rewrite Hnz, Hle in Ha. discriminate.
Qed.

(** X14: with a positive poll interval and a continue-after or abort-after
    threshold [L] other than 0, a call of [wait] ends within [L] minus the
    elapsed seconds it was entered with tail calls, whatever the platform
    answers: it returns or throws, and is not left polling. *)
Theorem wait_ends_within_threshold (ticks : nat) :
  forall (platform : nat -> Octokit) (n : nat) (this : Waiter)
         (secondsSoFar : option Z) (L : Z),
    continueAfterSeconds (input this) = Some L
    \/ abortAfterSeconds (input this) = Some L ->
    L <> 0 ->
    0 < pollIntervalSeconds (input this) ->
    0 <= attempt this ->
    (Z.to_nat (L - JS.or_undef secondsSoFar 0) <= ticks)%nat ->
    exists c, fst (fst (wait ticks platform n this secondsSoFar)) = result_of c
              /\ forall s, c <> Recurse s.
Proof.
  induction ticks as [|k IH]; intros platform n this s L HL Hnz Hb Ha Hfuel;
    cbn [wait];
    pose proof (tick_recurse_progress (platform n) this s) as Hprog;
    pose proof (tick_threshold_stops (platform n) this s L) as Hstop;
    destruct (completion (wait_tick (platform n) this s)) as [v|p|s'] eqn:Hc;
    try (eexists (Return v); split; [reflexivity | discriminate]);
    try (eexists (Throw p); split; [reflexivity | discriminate]).
  - exfalso. apply (Hstop s' HL Hnz); [lia | reflexivity].
  - assert (Hlt : JS.or_undef s 0 < L).
    { destruct (Z_lt_le_dec (JS.or_undef s 0) L) as [H|H]; [exact H|].
      exfalso. now apply (Hstop s' HL Hnz). }
    specialize (Hprog s' Hb Ha eq_refl).
    destruct (tick_keeps_config (platform n) this s) as [Hin _].
    pose proof (attempt_grows (platform n) this s) as Hgrow.
    destruct (IH platform (S n) (this' (wait_tick (platform n) this s)) (Some s') L)
      as (c & Hr & Hnot).
    + now rewrite Hin.
    + exact Hnz.
    + now rewrite Hin.
    + lia.
    + rewrite or_undef_elapsed. lia.
    + exists c. split; [|exact Hnot].
      destruct (wait k platform (S n) _ _) as [[r effs] w]. exact Hr.
Qed.

Lemma wait_ends_within_threshold_witness :
  (Z.to_nat (20 - JS.or_undef None 0) <= 20)%nat
  /\ exists c,
       fst (fst (wait 20 (fun _ => run7_running) 0
                   (new_Waiter 1 (with_abortAfterSeconds (Some 20) input0)) None))
       = result_of c
       /\ forall s, c <> Recurse s.
Proof.
  assert (Hfuel : (Z.to_nat (20 - JS.or_undef None 0) <= 20)%nat)
    by (vm_compute; repeat constructor).
  split; [exact Hfuel|].
  apply (wait_ends_within_threshold 20 (fun _ => run7_running) 0
           (new_Waiter 1 (with_abortAfterSeconds (Some 20) input0)) None 20).
  - right. reflexivity.
  - discriminate.
  - reflexivity.
  - vm_compute. discriminate.
  - exact Hfuel.
Defined.

Lemma fetchRuns_config (github : Octokit) (w1 w2 : Waiter) :
  input w1 = input w2 -> workflowId w1 = workflowId w2 ->
  fetchRuns github w1 = fetchRuns github w2.
Proof.
  intros Hi Hw. unfold fetchRuns. now rewrite Hi, Hw.
Qed.

(** Without thresholds and target job, every tick that finds a relevant
    previous run calls [wait] again. *)
Lemma tick_keeps_polling (github : Octokit) (this : Waiter) (s : option Z) :
  JS.truthy_num (continueAfterSeconds (input this)) = false ->
  JS.truthy_num (abortAfterSeconds (input this)) = false ->
  JS.truthy_str (jobToWaitFor (input this)) = false ->
  previousRuns (input this) (fetchRuns github this) <> [] ->
  exists s', completion (wait_tick github this s) = Recurse s'.
Proof.
  intros Hc Ha Hj Hruns.
  destruct (awaitCompletion_observe WaitingFullRun this s) as (Hobs & _).
  unfold observe in Hobs. injection Hobs as _ Hcm _ _.
  unfold wait_tick, continues, aborts. rewrite Hc, Ha. cbn [andb].
  destruct (previousRuns (input this) (fetchRuns github this)) as [|r rest];
    [now elim Hruns|].
  unfold jobDecision.
  destruct (jobToWaitFor (input this)) as [j|]; [rewrite Hj|]; eexists; exact Hcm.
Qed.

(** X15: with no continue-after and no abort-after threshold other than 0
    and no target job, a call of [wait] is still polling after any number of
    ticks as long as the platform keeps listing a relevant previous run:
    the wait has no bound of its own. *)
Theorem waits_without_bound (platform : nat -> Octokit) (this : Waiter) :
  JS.truthy_num (continueAfterSeconds (input this)) = false ->
  JS.truthy_num (abortAfterSeconds (input this)) = false ->
  JS.truthy_str (jobToWaitFor (input this)) = false ->
  (forall m, previousRuns (input this) (fetchRuns (platform m) this) <> []) ->
  forall (ticks n : nat) (secondsSoFar : option Z),
    exists s, fst (fst (wait ticks platform n this secondsSoFar)) = Polling s.
Proof.
  intros Hc Ha Hj Hruns ticks.
  assert (Hgen : forall n w s,
             input w = input this -> workflowId w = workflowId this ->
             exists s', fst (fst (wait ticks platform n w s)) = Polling s').
  { induction ticks as [|k IH]; intros n w s Hi Hw;
      destruct (tick_keeps_polling (platform n) w s) as [s' Ht];
      try (now rewrite Hi);
      try (rewrite Hi, (fetchRuns_config (platform n) w this Hi Hw); apply Hruns);
      cbn [wait]; rewrite Ht.
    - exists s'. reflexivity.
    - destruct (tick_keeps_config (platform n) w s) as [Hi' Hw'].
      destruct (IH (S n) (this' (wait_tick (platform n) w s)) (Some s')) as [s'' Hr].
      + now rewrite Hi'.
      + now rewrite Hw'.
      + exists s''. destruct (wait k platform (S n) _ _) as [[r effs] w']. exact Hr. }
  intros n s. apply Hgen; reflexivity.
Qed.

Lemma waits_without_bound_witness :
  exists s, fst (fst (wait 100 (fun _ => run7_running) 0 (new_Waiter 1 input0) None))
            = Polling s.
Proof.
  apply (waits_without_bound (fun _ => run7_running) (new_Waiter 1 input0)).
  - reflexivity.
  - reflexivity.
  - reflexivity.
  - intros m. discriminate.
Defined.

Lemma tick_without_backoff (github : Octokit) (this : Waiter) (s : option Z) :
  exponentialBackoffRetries (input this) = false ->
  this' (wait_tick github this s) = this
  /\ Forall (fun ms =>
               ms = pollIntervalSeconds (input this) * 1000
               \/ exists i, initialWaitSeconds (input this) = Some i /\ ms = i * 1000)
       (sleeps (effects (wait_tick github this s))).
Proof.
  intros Hb.
  destruct (wait_tick_shape github this s)
    as [[_ ->]|[(_ & _ & ->)|(_ & _ & [(_ & i & Hi & _ & ->)|[(_ & _ & ->)|[(_ & ->)|(_ & o & _ & ->)]]])]];
    cbn [this' effects completed sleeps flat_map app];
    try (split; [reflexivity | solve [constructor]]).
  - split; [reflexivity|]. constructor; [|constructor]. right. exists i. auto.
  - unfold awaitCompletion, pollAndWait. rewrite Hb.
    cbn [this' effects sleeps flat_map app]. rewrite intervalToUse_base.
    split; [reflexivity|]. constructor; [left; reflexivity | constructor].
Qed.

(** X16: with exponential backoff disabled, a whole call of [wait] leaves
    the attempt counter as it found it, and every sleep it takes lasts the
    poll interval or, for the initial delay, the initial wait. *)
Theorem without_backoff_fixed_interval (ticks : nat) :
  forall (platform : nat -> Octokit) (n : nat) (this : Waiter) (secondsSoFar : option Z),
    exponentialBackoffRetries (input this) = false ->
    snd (wait ticks platform n this secondsSoFar) = this
    /\ Forall (fun ms =>
                 ms = pollIntervalSeconds (input this) * 1000
                 \/ exists i, initialWaitSeconds (input this) = Some i /\ ms = i * 1000)
         (sleeps (snd (fst (wait ticks platform n this secondsSoFar)))).
Proof.
  induction ticks as [|k IH]; intros platform n this s Hb; cbn [wait];
    destruct (tick_without_backoff (platform n) this s Hb) as [Hthis Hsl];
    destruct (completion (wait_tick (platform n) this s)) as [v|p|s'];
    cbn [fst snd]; try (split; assumption).
  specialize (IH platform (S n) (this' (wait_tick (platform n) this s)) (Some s')).
  rewrite Hthis in IH. specialize (IH Hb).
  destruct (wait k platform (S n) this (Some s')) as [[r effs] w] eqn:Hw.
  rewrite Hthis, Hw. cbn [fst snd] in *. destruct IH as [-> Hsl'].
  split; [reflexivity|]. rewrite sleeps_app. apply Forall_app. auto.
Qed.

Lemma without_backoff_fixed_interval_witness :
  snd (wait 3 (fun _ => run7_running) 0 (new_Waiter 1 input0) None) = new_Waiter 1 input0
  /\ sleeps (snd (fst (wait 3 (fun _ => run7_running) 0 (new_Waiter 1 input0) None)))
     = [15000; 15000; 15000; 15000].
Proof.
  split; [|reflexivity].
  apply (without_backoff_fixed_interval 3 (fun _ => run7_running) 0
           (new_Waiter 1 input0) None).
  reflexivity.
Defined.

Lemma tick_attempt_per_sleep (github : Octokit) (this : Waiter) (s : option Z) :
  attempt (this' (wait_tick github this s)) - attempt this
  <= Z.of_nat (List.length (sleeps (effects (wait_tick github this s)))).
Proof.
  destruct (wait_tick_shape github this s)
    as [[_ ->]|[(_ & _ & ->)|(_ & _ & [(_ & i & _ & _ & ->)|[(_ & _ & ->)|[(_ & ->)|(_ & o & _ & ->)]]])]];
    cbn [this' effects completed sleeps flat_map app List.length]; try lia.
  destruct (awaitCompletion_observe o this s) as (Hobs & _).
  unfold observe in Hobs. injection Hobs as _ _ He Hat. rewrite He, Hat.
  cbn [sleeps flat_map app List.length].
  destruct (exponentialBackoffRetries (input this)); lia.
Qed.

(** X17: over a whole call of [wait] the attempt counter never goes down,
    and it goes up by at most one for each sleep the call takes; a call that
    does not sleep leaves it as it is. *)
Theorem attempt_bounded_by_sleeps (ticks : nat) :
  forall (platform : nat -> Octokit) (n : nat) (this : Waiter) (secondsSoFar : option Z),
    let w := snd (wait ticks platform n this secondsSoFar) in
    let effs := snd (fst (wait ticks platform n this secondsSoFar)) in
    attempt this <= attempt w
    /\ attempt w - attempt this <= Z.of_nat (List.length (sleeps effs)).
Proof.
  induction ticks as [|k IH]; intros platform n this s; cbv zeta; cbn [wait];
    pose proof (attempt_grows (platform n) this s) as Hg;
    pose proof (tick_attempt_per_sleep (platform n) this s) as Hs;
    destruct (completion (wait_tick (platform n) this s)) as [v|p|s'];
    cbn [fst snd]; try (split; assumption).
  specialize (IH platform (S n) (this' (wait_tick (platform n) this s)) (Some s')).
  cbv zeta in IH.
  destruct (wait k platform (S n) _ _) as [[r effs] w]. cbn [fst snd] in *.
  rewrite sleeps_app, List.length_app, Nat2Z.inj_add. lia.
Qed.

(** * The waiting intervals of a call under backoff *)

(** The effects of a call are the effects of its ticks, in order. *)
Lemma wait_effects_ticks (ticks : nat) :
  forall (platform : nat -> Octokit) (n : nat) (this : Waiter) (secondsSoFar : option Z),
    snd (fst (wait ticks platform n this secondsSoFar))
    = flat_map effects (ticks_of ticks platform n this secondsSoFar).
Proof.
  induction ticks as [|k IH]; intros platform n this s; cbn [wait ticks_of];
    destruct (completion (wait_tick (platform n) this s)) as [v|p|s'];
    cbn [fst snd flat_map]; try (now rewrite app_nil_r).
  specialize (IH platform (S n) (this' (wait_tick (platform n) this s)) (Some s')).
  destruct (wait k platform (S n) _ _) as [[r effs] w]. cbn [fst snd] in *.
  now rewrite IH.
Qed.

(** Under backoff a waiting tick sleeps the base times [max(1, 2 * attempt)]
    and adds one to the counter; any other tick leaves the counter. *)
Lemma tick_backoff_step (github : Octokit) (this : Waiter) (s : option Z) :
  exponentialBackoffRetries (input this) = true -> 0 <= attempt this ->
  (is_waiting (outcome (wait_tick github this s)) = true
   /\ effects (wait_tick github this s)
      = [Sleep (pollIntervalSeconds (input this) * Z.max 1 (2 * attempt this) * 1000)]
   /\ attempt (this' (wait_tick github this s)) = attempt this + 1)
  \/ (is_waiting (outcome (wait_tick github this s)) = false
      /\ attempt (this' (wait_tick github this s)) = attempt this).
Proof.
  intros Hb Ha.
  destruct (wait_tick_shape github this s)
    as [[_ ->]|[(_ & _ & ->)|(_ & _ & [(_ & i & _ & _ & ->)|[(_ & _ & ->)|[(_ & ->)|(_ & o & Ho & ->)]]])]];
    cbn [outcome effects this' completed is_waiting]; auto.
  left. destruct (awaitCompletion_observe o this s) as (Hobs & _).
  unfold observe in Hobs. cbv zeta in Hobs. rewrite Hb, (or_num_max _ Ha) in Hobs.
  injection Hobs as Hout _ He Hat. rewrite Hout, He, Hat. auto.
Qed.

Lemma backoff_intervals_from (ticks : nat) :
  forall (platform : nat -> Octokit) (n : nat) (this : Waiter) (s : option Z)
         (j : nat) (t : Tick),
    exponentialBackoffRetries (input this) = true -> 0 <= attempt this ->
    nth_error (filter (fun t => is_waiting (outcome t)) (ticks_of ticks platform n this s)) j
    = Some t ->
    effects t
    = [Sleep (pollIntervalSeconds (input this)
              * Z.max 1 (2 * (attempt this + Z.of_nat j)) * 1000)].
Proof.
  assert (Hone : forall (github : Octokit) (this : Waiter) (s : option Z) j t,
             exponentialBackoffRetries (input this) = true -> 0 <= attempt this ->
             nth_error (filter (fun t => is_waiting (outcome t))
                          [wait_tick github this s]) j = Some t ->
             effects t
             = [Sleep (pollIntervalSeconds (input this)
                       * Z.max 1 (2 * (attempt this + Z.of_nat j)) * 1000)]).
  { intros github this s j t Hb Ha. cbn [filter].
    destruct (tick_backoff_step github this s Hb Ha) as [(Hw & He & _)|(Hw & _)];
      rewrite Hw.
    - destruct j as [|j]; cbn [nth_error].
      + intros [= <-]. now rewrite Z.add_0_r.
      + destruct j; discriminate.
    - destruct j; discriminate. }
  induction ticks as [|k IH]; intros platform n this s j t Hb Ha; cbn [ticks_of];
    destruct (completion (wait_tick (platform n) this s)) as [v|p|s'];
    try (apply Hone; assumption).
  cbn [filter].
  destruct (tick_keeps_config (platform n) this s) as [Hin _].
  destruct (tick_backoff_step (platform n) this s Hb Ha) as [(Hw & He & Hat)|(Hw & Hat)];
    rewrite Hw.
  - destruct j as [|j]; cbn [nth_error].
    + intros [= <-]. now rewrite Z.add_0_r.
    + intros Hj. apply IH in Hj.
      * rewrite Hj, Hin, Hat. do 4 f_equal. lia.
      * now rewrite Hin.
      * lia.
  - intros Hj. apply IH in Hj.
    + now rewrite Hj, Hin, Hat.
    + now rewrite Hin.
    + lia.
Qed.

(** C4, as the code has it: with exponential backoff enabled and base
    interval b, the k-th Waiting* transition of a call of [wait] on a new
    Waiter sleeps b * max(1, 2 * (k - 1)) seconds, for every k >= 1 and
    whatever the platform answers and whatever ticks come in between: the
    intervals are b, 2b, 4b, 6b, 8b, ... *)
Theorem backoff_intervals (ticks : nat) (platform : nat -> Octokit) (n : nat)
    (this : Waiter) (secondsSoFar : option Z) (k : nat) (t : Tick) :
  exponentialBackoffRetries (input this) = true ->
  attempt this = 0 ->
  (1 <= k)%nat ->
  nth_error (filter (fun t => is_waiting (outcome t))
               (ticks_of ticks platform n this secondsSoFar)) (k - 1)
  = Some t ->
  effects t
  = [Sleep (pollIntervalSeconds (input this) * Z.max 1 (2 * (Z.of_nat k - 1)) * 1000)].
Proof.
  intros Hb Ha Hk Ht.
  rewrite (backoff_intervals_from ticks platform n this secondsSoFar (k - 1) t Hb);
    [| lia | exact Ht].
  rewrite Ha. do 4 f_equal. lia.
Qed.

Lemma backoff_intervals_witness :
  nth_error (filter (fun t => is_waiting (outcome t))
               (ticks_of 4 (fun _ => run7_running) 0 (backoff_Waiter 15 0) None)) (4 - 1)
  = Some (wait_tick run7_running (backoff_Waiter 15 3) (Some 105))
  /\ effects (wait_tick run7_running (backoff_Waiter 15 3) (Some 105))
     = [Sleep (15 * Z.max 1 (2 * (Z.of_nat 4 - 1)) * 1000)]
  /\ 15 * Z.max 1 (2 * (Z.of_nat 4 - 1)) * 1000 = 90000.
Proof.
  assert (Hnth : nth_error (filter (fun t => is_waiting (outcome t))
                   (ticks_of 4 (fun _ => run7_running) 0 (backoff_Waiter 15 0) None)) (4 - 1)
                 = Some (wait_tick run7_running (backoff_Waiter 15 3) (Some 105)))
    by reflexivity.
  split; [exact Hnth|]. split; [|reflexivity].
  apply (backoff_intervals 4 (fun _ => run7_running) 0 (backoff_Waiter 15 0) None 4
           (wait_tick run7_running (backoff_Waiter 15 3) (Some 105))).
  - reflexivity.
  - reflexivity.
  - repeat constructor.
  - exact Hnth.
Defined.

(** * A call of [wait] whose requests may fail *)

Lemma tryFetchRuns_answers (q : Requests) (this : Waiter) (runs : list Run) :
  tryFetchRuns q this = Answered runs -> fetchRuns (answers_of q) this = runs.
Proof.
  unfold tryFetchRuns, tryRuns, fetchRuns, GitHub.runs. cbn [answers_of listWorkflowRuns].
  destruct (tryListWorkflowRuns q _ _ _ _ in_progress) as [a|]; [|discriminate].
  destruct (tryListWorkflowRuns q _ _ _ _ queued) as [b|]; [|discriminate].
  destruct (tryListWorkflowRuns q _ _ _ _ waiting) as [c|]; [|discriminate].
  now intros [= <-].
Qed.

Lemma tryStepDecision_answers (q : Requests) (this : Waiter) (s : option Z)
    (job : option Job) (d : option Tick) :
  tryStepDecision q this s job = Answered d ->
  stepDecision (answers_of q) this s job = d.
Proof.
  unfold tryStepDecision, stepDecision, trySteps, GitHub.steps.
  cbn [answers_of getJobForWorkflowRun].
  destruct (stepToWaitFor (input this)) as [stepName|]; [|now intros [= <-]].
  destruct job as [job|]; [|now intros [= <-]].
  destruct (JS.truthy_str (Some stepName)); [|now intros [= <-]].
  destruct (tryGetJobForWorkflowRun q _ _ _) as [j|]; [|discriminate].
  now intros [= <-].
Qed.

Lemma tryJobDecision_answers (q : Requests) (this : Waiter) (s : option Z)
    (previousRun : Run) (d : option Tick) :
  tryJobDecision q this s previousRun = Answered d ->
  jobDecision (answers_of q) this s previousRun = d.
Proof.
  unfold tryJobDecision, jobDecision, tryJobs, GitHub.jobs.
  cbn [answers_of listJobsForWorkflowRun].
  destruct (jobToWaitFor (input this)) as [jobName|]; [|now intros [= <-]].
  destruct (JS.truthy_str (Some jobName)); [|now intros [= <-]].
  destruct (tryListJobsForWorkflowRun q _ _ _) as [jobs|]; [|discriminate].
  destruct (tryStepDecision q this s _) as [[t|]|] eqn:Hs; try discriminate;
    apply tryStepDecision_answers in Hs; cbn [answers_of] in Hs; rewrite Hs;
    now intros [= <-].
Qed.

(** A tick whose requests all answer is the tick on the platform that
    answers them. *)
Lemma try_wait_tick_answers (q : Requests) (this : Waiter) (s : option Z) (t : Tick) :
  try_wait_tick q this s = Answered t -> wait_tick (answers_of q) this s = t.
Proof.
  unfold try_wait_tick, wait_tick.
  destruct (continues (input this) s); [now intros [= <-]|].
  destruct (aborts (input this) s); [now intros [= <-]|].
  destruct (tryFetchRuns q this) as [runs|] eqn:Hf; [|discriminate].
  rewrite (tryFetchRuns_answers _ _ _ Hf).
  destruct (previousRuns (input this) runs) as [|r rest].
  - destruct (retriesInitially (input this) s); now intros [= <-].
  - destruct (tryJobDecision q this s r) as [[d|]|] eqn:Hj; try discriminate;
      rewrite (tryJobDecision_answers _ _ _ _ _ Hj); now intros [= <-].
Qed.

(** On a platform that answers, nothing changes. *)
Lemma try_wait_tick_answering (o : Octokit) (this : Waiter) (s : option Z) :
  try_wait_tick (answering o) this s = Answered (wait_tick o this s).
Proof.
  unfold try_wait_tick, wait_tick, tryFetchRuns, tryRuns, fetchRuns, GitHub.runs,
    tryJobDecision, jobDecision, tryStepDecision, stepDecision,
    tryJobs, trySteps, GitHub.jobs, GitHub.steps.
  cbn [answering tryListWorkflowRuns tryListJobsForWorkflowRun tryGetJobForWorkflowRun].
  destruct (continues (input this) s); [reflexivity|].
  destruct (aborts (input this) s); [reflexivity|].
  destruct (previousRuns _ _) as [|r rest].
  - now destruct (retriesInitially (input this) s).
  - destruct (jobToWaitFor (input this)) as [jobName|]; [|reflexivity].
    destruct (JS.truthy_str (Some jobName)); [|reflexivity].
    destruct (stepToWaitFor (input this)) as [stepName|].
    + destruct (JS.find _ _) as [job|]; [|reflexivity].
      destruct (JS.truthy_str (Some stepName)).
      * destruct (JS.find _ _) as [step|].
        -- now destruct (negb (String.eqb (step_status step) "completed")).
        -- now destruct (negb (String.eqb (job_status job) "completed")).
      * now destruct (negb (String.eqb (job_status job) "completed")).
    + destruct (JS.find _ _) as [job|]; [|reflexivity].
      now destruct (negb (String.eqb (job_status job) "completed")).
Qed.

(** A call that does not end with the client's error is the call on the
    platforms that answer what the requests answered. *)
Lemma try_wait_ended (ticks : nat) :
  forall (platform : nat -> Requests) (n : nat) (this : Waiter) (s : option Z)
         (r : Result),
    fst (fst (try_wait ticks platform n this s)) = Ended_with r ->
    fst (fst (wait ticks (fun m => answers_of (platform m)) n this s)) = r
    /\ snd (fst (try_wait ticks platform n this s))
       = snd (fst (wait ticks (fun m => answers_of (platform m)) n this s)).
Proof.
  induction ticks as [|k IH]; intros platform n this s r; cbn [try_wait wait];
    destruct (try_wait_tick (platform n) this s) as [t|] eqn:Ht;
    try discriminate;
    rewrite (try_wait_tick_answers _ _ _ _ Ht);
    destruct (completion t) as [v|p|s']; cbn [fst snd];
    try (intros [= <-]; split; reflexivity).
  specialize (IH platform (S n) (this' t) (Some s') r).
  destruct (try_wait k platform (S n) (this' t) (Some s')) as [[r1 e1] w1].
  destruct (wait k (fun m => answers_of (platform m)) (S n) (this' t) (Some s'))
    as [[r2 e2] w2].
  cbn [fst snd] in *. intros Hr. destruct (IH Hr) as [-> ->]. auto.
Qed.

(** X11: a call of [wait] throws its abort error only with an abort-after
    threshold other than 0 that the elapsed seconds carried by the error
    have reached, and with no continue-after threshold other than 0 reached
    by them, and clearing the force-continued output is then the last thing
    it does; this holds whichever requests of the client answer or fail, a
    failed request ending the call with the client's error instead. *)
Theorem abort_error_reached_threshold (ticks : nat) (platform : nat -> Requests)
    (n : nat) (this : Waiter) (secondsSoFar p : option Z) :
  fst (fst (try_wait ticks platform n this secondsSoFar)) = Ended_with (Rejected p) ->
  (exists A, abortAfterSeconds (input this) = Some A /\ A <> 0
             /\ A <= JS.or_undef p 0)
  /\ (forall C, continueAfterSeconds (input this) = Some C ->
        C = 0 \/ JS.or_undef p 0 < C)
  /\ exists pre, snd (fst (try_wait ticks platform n this secondsSoFar))
                 = pre ++ [SetOutput "force_continued" ""].
Proof.
  intros Hr. destruct (try_wait_ended _ _ _ _ _ _ Hr) as [Hw He].
  rewrite He. now apply wait_aborted_inv.
Qed.

Lemma abort_error_reached_threshold_witness :
  fst (fst (try_wait 4 (fun _ => answering run7_running) 0
              (new_Waiter 1 (with_abortAfterSeconds (Some 20) input0)) None))
  = Ended_with (Rejected (Some 30))
  /\ exists A, abortAfterSeconds (with_abortAfterSeconds (Some 20) input0) = Some A
               /\ A <> 0 /\ A <= JS.or_undef (Some 30) 0.
Proof.
  split; [reflexivity|].
  apply (abort_error_reached_threshold 4 (fun _ => answering run7_running) 0
           (new_Waiter 1 (with_abortAfterSeconds (Some 20) input0)) None (Some 30)).
  reflexivity.
Defined.

(** X12: a call of [wait] never throws its abort error when no abort-after
    threshold other than 0 is set, nor when a continue-after threshold other
    than 0 is set that is not above the abort-after threshold, the continue
    test coming first; such a call can still be rejected, with the client's
    error: it is, with no effect, when the listing of the runs fails at a
    tick that gets past the two thresholds. *)
Theorem abort_error_never_thrown (ticks : nat) (platform : nat -> Requests) (n : nat)
    (this : Waiter) (secondsSoFar : option Z) :
  JS.truthy_num (abortAfterSeconds (input this)) = false
  \/ (exists C A, continueAfterSeconds (input this) = Some C /\ C <> 0
                  /\ abortAfterSeconds (input this) = Some A /\ C <= A) ->
  (forall p, fst (fst (try_wait ticks platform n this secondsSoFar))
             <> Ended_with (Rejected p))
  /\ (continues (input this) secondsSoFar = false ->
      tryFetchRuns (platform n) this = RequestFailed ->
      try_wait ticks platform n this secondsSoFar = (ClientError, [], this)).
Proof.
  intros Hcfg. split.
  - intros p Hr. destruct (try_wait_ended _ _ _ _ _ _ Hr) as [Hw _].
    revert Hw. now apply wait_not_aborted.
  - intros Hc Hf.
    assert (Ha : aborts (input this) secondsSoFar = false).
    { destruct (aborts (input this) secondsSoFar) eqn:Ha; [|reflexivity].
      destruct (aborts_inv _ _ Ha) as (A & HA & HAnz & HAle).
      destruct Hcfg as [Hfalsy | (C & A' & HC & HCnz & HA' & Hle)].
      - rewrite HA in Hfalsy. cbn in Hfalsy.
        apply negb_false_iff, Z.eqb_eq in Hfalsy. contradiction.
      - rewrite HA in HA'. injection HA' as <-.
        destruct (continues_false_inv _ _ _ Hc HC); [contradiction | lia]. }
    assert (Ht : try_wait_tick (platform n) this secondsSoFar = RequestFailed).
    { unfold try_wait_tick. now rewrite Hc, Ha, Hf. }
    destruct ticks; cbn [try_wait]; now rewrite Ht.
Qed.

Lemma abort_error_never_thrown_witness :
  fst (fst (try_wait 4 (fun _ => answering run7_running) 0
              (new_Waiter 1 (with_abortAfterSeconds (Some 30)
                               (with_continueAfterSeconds (Some 30) input0))) None))
  = Ended_with (Resolved (Some 30))
  /\ fst (fst (try_wait 4 (fun _ => answering run7_running) 0
                 (new_Waiter 1 (with_abortAfterSeconds (Some 30)
                                  (with_continueAfterSeconds (Some 30) input0))) None))
     <> Ended_with (Rejected (Some 30))
  /\ try_wait 4 (fun m => match m with O => answering run7_running | _ => unreachable end)
       0 (new_Waiter 1 input0) None
     = (ClientError, [Sleep 15000], new_Waiter 1 input0)
  /\ try_wait 4 (fun _ => unreachable) 0 (new_Waiter 1 input0) None
     = (ClientError, [], new_Waiter 1 input0).
Proof.
  split; [reflexivity|]. split; [|split; [reflexivity|]].
  - apply (abort_error_never_thrown 4 (fun _ => answering run7_running) 0
             (new_Waiter 1 (with_abortAfterSeconds (Some 30)
                              (with_continueAfterSeconds (Some 30) input0))) None).
    right. exists 30, 30. repeat split.
    + discriminate.
    + vm_compute. discriminate.
  - apply (abort_error_never_thrown 4 (fun _ => unreachable) 0 (new_Waiter 1 input0) None).
    + left. reflexivity.
    + reflexivity.
    + reflexivity.
Defined.
